(** * sphinxhp_extract: the data module (src/data.py), embedded and verified

    The development follows [src/data.py]: the flyweight [Entry] class with
    its module-level cache, the [DataExtractor.get_defs] traversal of the
    definition lists of a page, the [Database]/[SphinxDatabase] keyed store
    with [initialize], [expand_epath], [get_data] and [get_epaths], and the
    [Writer] base class with [check_database].

    Modelling conventions.
    - Python strings are [string]: the text modelled is the text of
      characters below U+0100 (ASCII and Latin-1), the character of code
      point [n] being [ascii_of_nat n].  On such text [\d] is one of 0-9
      (no other decimal digit lies below U+0100) and re.IGNORECASE folds
      the letters A-Z and the capital letters U+00C0 to U+00DE; text with
      other characters is outside the model.
    - A Python value that may be [None] is an [option]; exceptions are the
      constructors of [exn] (messages are not modelled), and a call that
      may raise returns a [result].
    - Python dicts iterate in insertion order; a dict whose order matters is
      an association list with unique keys ([dict_set] keeps the position of
      an existing key).  The entry class cache is never iterated, so it is
      a [gmap].
    - Objects with identity (the [Entry] instances) live in a heap, a list
      of cells addressed by position; a reference is a [nat]. *)

From Stdlib Require Import ZArith Ascii String.
From stdpp Require Import base option list gmap strings.

Open Scope string_scope.
Open Scope list_scope.

(* ===================================================================== *)
(** * Exceptions, results, state *)
(* ===================================================================== *)

Inductive exn : Type :=
  | TypeError
  | ValueError
  | KeyError
  | AttributeError
  | IOError
  | ParseError
  | InvalidStateError   (* errors.InvalidStateError *)
  | ReError.            (* re.error *)

Inductive result (A : Type) : Type :=
  | Ok (a : A)
  | Raise (e : exn).
Arguments Ok {A} a.
Arguments Raise {A} e.

Definition rbind {A B} (r : result A) (k : A → result B) : result B :=
  match r with Ok a => k a | Raise e => Raise e end.

(** Computations over a mutable state [S] that may raise: the state at the
    moment of the raise is kept, as Python keeps the mutations done so far. *)
Definition M (S A : Type) : Type := S → result A * S.

Definition ret {S A} (a : A) : M S A := fun s => (Ok a, s).
Definition bind {S A B} (m : M S A) (k : A → M S B) : M S B :=
  fun s => match m s with
           | (Ok a, s') => k a s'
           | (Raise e, s') => (Raise e, s')
           end.
Definition lift {S A} (r : result A) : M S A := fun s => (r, s).

(** [try: m  except KeyError: pass] *)
Definition except_KeyError {S} (m : M S unit) : M S unit :=
  fun s => match m s with
           | (Raise KeyError, s') => (Ok tt, s')
           | r => r
           end.

Declare Scope py_scope.
Notation "'do' x <- m ; k" := (bind m (fun x => k))
  (at level 10, x name, m at level 100, k at level 200,
   format "'[v' 'do'  x  <-  m ; '/' k ']'") : py_scope.
Notation "m ;; k" := (bind m (fun _ => k))
  (at level 100, k at level 200, right associativity) : py_scope.
Open Scope py_scope.

(** [for x in l: body x] *)
Fixpoint for_each {S A} (l : list A) (body : A → M S unit) : M S unit :=
  match l with
  | [] => ret tt
  | x :: l' => body x ;; for_each l' body
  end.

(** A computation keeps a property of the state, whether it returns or
    raises. *)
Definition keeps {S A} (P : S → Prop) (m : M S A) : Prop :=
  ∀ s r s', P s → m s = (r, s') → P s'.

(* ===================================================================== *)
(** * Strings and insertion-ordered dicts *)
(* ===================================================================== *)

(** [c in s] for a one-character [c]. *)
Fixpoint str_contains (c : ascii) (s : string) : bool :=
  match s with
  | EmptyString => false
  | String x s' => if Ascii.eqb c x then true else str_contains c s'
  end.

(** [str(x)] for a string or [None]. *)
Definition py_str (x : option string) : string :=
  match x with None => "None" | Some s => s end.

(** [isinstance(x, str)] for a string or [None]. *)
Definition isinstance_str (x : option string) : bool :=
  match x with Some _ => true | None => false end.

(** [a + b] on strings; [None] on the right raises TypeError. *)
Definition str_add (a : string) (b : option string) : result string :=
  match b with Some s => Ok (a +:+ s) | None => Raise TypeError end.

(** [s.split(sep)[0]] *)
Fixpoint split_head (sep : ascii) (s : string) : string :=
  match s with
  | EmptyString => EmptyString
  | String x s' => if Ascii.eqb x sep then EmptyString else String x (split_head sep s')
  end.

Section Dict.
Context {K V : Type} `{EqDecision K}.

Fixpoint dict_get (k : K) (d : list (K * V)) : option V :=
  match d with
  | [] => None
  | (k', v) :: d' => if decide (k = k') then Some v else dict_get k d'
  end.

(** [d[k] = v]: overwrite in place, else append at the end. *)
Fixpoint dict_set (k : K) (v : V) (d : list (K * V)) : list (K * V) :=
  match d with
  | [] => [(k, v)]
  | (k', v') :: d' =>
      if decide (k = k') then (k', v) :: d' else (k', v') :: dict_set k v d'
  end.

Definition dict_keys (d : list (K * V)) : list K := map fst d.
Definition dict_values (d : list (K * V)) : list V := map snd d.
End Dict.

(* ===================================================================== *)
(** * The fragment of [re] the module uses *)
(* ===================================================================== *)

Module Re.

Definition newline : ascii := "010"%char.

(** The capital letters below U+0100: A-Z, and U+00C0 to U+00DE but for
    the multiplication sign U+00D7. *)
Definition is_upper (c : ascii) : bool :=
  let n := nat_of_ascii c in
  ((65 <=? n)%nat && (n <=? 90)%nat)
  || ((192 <=? n)%nat && (n <=? 222)%nat && negb (n =? 215)%nat).

(** The lower case of a character, as [re] folds a pattern of type [str]:
    each capital letter below U+0100 has its small letter 32 places up. *)
Definition lower (c : ascii) : ascii :=
  if is_upper c then ascii_of_nat (nat_of_ascii c + 32) else c.

(** Two characters are equal under re.IGNORECASE: they have one lower
    case.  (The characters that fold to a letter from above U+00FF, as
    U+017F to [s], are not characters of the modelled text.) *)
Definition ci_eqb (a b : ascii) : bool := Ascii.eqb (lower a) (lower b).

(** [\d]: a decimal digit; below U+0100 these are 0-9. *)
Definition is_digit (c : ascii) : bool :=
  let n := nat_of_ascii c in (48 <=? n)%nat && (n <=? 57)%nat.

(** Characters with a meaning of their own in a regular expression, other
    than the dot: a pattern containing one is left to the library. *)
Definition is_special (c : ascii) : bool :=
  existsb (Ascii.eqb c)
    (ascii_of_nat 92 ::                                   (* the backslash *)
     ["^"; "$"; "+"; "{"; "}"; "["; "]"; "|"; "("; ")"]%char).

(** What [epath.replace('?', '.').replace('*', '.*?')] compiles to, one
    item per character of [epath]: ['?'] and a literal ['.'] become the
    dot, ['*'] becomes the lazy [.*?], any other character is itself. *)
Inductive atom : Type :=
  | Lit (c : ascii)
  | Dot
  | LazyDots.

Fixpoint parse_epath (epath : string) : option (list atom) :=
  match epath with
  | EmptyString => Some []
  | String c rest =>
      if is_special c then None
      else match parse_epath rest with
           | None => None
           | Some r =>
               Some ((if Ascii.eqb c "?" then Dot
                      else if Ascii.eqb c "*" then LazyDots
                      else if Ascii.eqb c "." then Dot
                      else Lit c) :: r)
           end
  end.

(** The text [epath.replace('?', '.').replace('*', '.*?')] itself. *)
Fixpoint regex_of (epath : string) : string :=
  match epath with
  | EmptyString => EmptyString
  | String c rest =>
      (if Ascii.eqb c "?" then "."
       else if Ascii.eqb c "*" then ".*?"
       else String c EmptyString) +:+ regex_of rest
  end.

(** The dot matches any character but the newline (no DOTALL). *)
Definition dot_ok (c : ascii) : bool := negb (Ascii.eqb c newline).

(** [re.match(pat, s) is not None] under IGNORECASE: the pattern must
    match at the start of [s], and need not reach its end.  The lazy
    quantifier tries the shortest run first; whether a match exists does
    not depend on that order. *)
Fixpoint matches (p : list atom) (s : string) {struct p} : bool :=
  match p with
  | [] => true
  | Lit c :: p' =>
      match s with
      | EmptyString => false
      | String x s' => ci_eqb c x && matches p' s'
      end
  | Dot :: p' =>
      match s with
      | EmptyString => false
      | String x s' => dot_ok x && matches p' s'
      end
  | LazyDots :: p' =>
      (fix run (s : string) : bool :=
         matches p' s ||
         match s with
         | EmptyString => false
         | String x s' => dot_ok x && run s'
         end) s
  end.

(** The rest of the [re] library, which this development does not
    define: what [re.compile(pattern, re.IGNORECASE)] does with a pattern
    that holds more regular expression syntax than the items above.  It
    raises re.error ([None]) or gives a pattern object, of which
    [re.match] tells for every string whether the pattern matches at the
    start of the string. *)
Class Library : Type := compile_other : string → option (string → bool).

(** [re.compile(epath.replace('?', '.').replace('*', '.*?'),
    re.IGNORECASE)], as the test [re.match(pat, ep)] it is used for. *)
Definition compile_epath `{!Library} (epath : string) : result (string → bool) :=
  match parse_epath epath with
  | Some pat => Ok (matches pat)
  | None =>
      match compile_other (regex_of epath) with
      | Some pat => Ok pat
      | None => Raise ReError
      end
  end.

(** Two strings are equal under IGNORECASE. *)
Fixpoint ci_str_eqb (a b : string) : bool :=
  match a, b with
  | EmptyString, EmptyString => true
  | String x a', String y b' => ci_eqb x y && ci_str_eqb a' b'
  | _, _ => false
  end.

(** If [lit] is a prefix of [s] under IGNORECASE, what follows it. *)
Fixpoint ci_strip (lit s : string) : option string :=
  match lit, s with
  | EmptyString, _ => Some s
  | String _ _, EmptyString => None
  | String a lit', String b s' => if ci_eqb a b then ci_strip lit' s' else None
  end.

(** The longest run of digits at the start of [s], and the rest. *)
Fixpoint span_digits (s : string) : string * string :=
  match s with
  | EmptyString => (EmptyString, EmptyString)
  | String c s' =>
      if is_digit c
      then let '(d, r) := span_digits s' in (String c d, r)
      else (EmptyString, s)
  end.

(** One attempt of [lit (\d+\.\d+)] at the start of [s]; the group. *)
Definition version_at (lit s : string) : option string :=
  match ci_strip lit s with
  | None => None
  | Some r =>
      match span_digits r with
      | (EmptyString, _) => None
      | (major, String "." r') =>
          match span_digits r' with
          | (EmptyString, _) => None
          | (minor, _) => Some (major +:+ "." +:+ minor)
          end
      | _ => None
      end
  end.

(** [re.search] of [lit (\d+\.\d+)]: the leftmost position that matches. *)
Fixpoint search_version (lit s : string) : option string :=
  match version_at lit s with
  | Some v => Some v
  | None =>
      match s with
      | EmptyString => None
      | String _ s' => search_version lit s'
      end
  end.

End Re.

(* ===================================================================== *)
(** * Entry: the flyweight class and its cache *)
(* ===================================================================== *)

(** Values of an entry's [items] dict: a string or [None]. *)
Abbreviation pyval := (option string).

(** Attributes [__init__] gives an instance. *)
Record entry_attrs : Type := {
  primary_type : string;
  items : list (string * pyval);
}.

(** The interpreter state the module shares between calls: the instances
    (a cell is [None] between [__new__] and [__init__], when the object has
    no attribute yet) and the module-level [__entry_classcache__]. *)
Record pystate : Type := {
  heap : list (option entry_attrs);
  entry_classcache : gmap string nat;
}.

Definition empty_state : pystate :=
  {| heap := []; entry_classcache := ∅ |}.

Module Entry.

(** [__entry_classcache__.get(key, None)]: the keys ever stored are
    strings, so [None] is never found. *)
Definition cache_get (key : pyval) (st : pystate) : option nat :=
  match key with
  | None => None
  | Some k => entry_classcache st !! k
  end.

(** [Entry.__new__(cls, items, primary_type)] *)
Definition new (its : list (string * pyval)) (pt : string) : M pystate nat :=
  fun st =>
    match dict_get pt its with
    | None => (Raise KeyError, st)                (* items[primary_type] *)
    | Some key =>
        match cache_get key st with
        | None =>
            (Ok (length (heap st)),
             {| heap := heap st ++ [None];
                entry_classcache := entry_classcache st |})
        | Some obj => (Ok obj, st)
        end
    end.

(** [hasattr(self, 'items')] *)
Definition has_items (self : nat) (st : pystate) : bool :=
  match heap st !! self with
  | Some (Some _) => true
  | _ => false
  end.

(** [Entry.__init__(self, items, primary_type)] *)
Definition init (self : nat) (its : list (string * pyval)) (pt : string)
  : M pystate unit :=
  fun st =>
    if has_items self st then (Ok tt, st)
    else
      (Ok tt,
       {| heap := <[self := Some {| primary_type := pt; items := its |}]> (heap st);
          entry_classcache := <[pt := self]> (entry_classcache st) |}).

(** The call [Entry(items, primary_type)]: [__new__], then [__init__] on
    the object it returned. *)
Definition call (its : list (string * pyval)) (pt : string) : M pystate nat :=
  do self <- new its pt;
  init self its pt ;;
  ret self.

(** [self[key]], that is [self.items[key]]. *)
Definition getitem (h : list (option entry_attrs)) (self : nat) (key : string)
  : result pyval :=
  match h !! self with
  | Some (Some a) =>
      match dict_get key (items a) with
      | Some v => Ok v
      | None => Raise KeyError
      end
  | _ => Raise AttributeError
  end.

(** [Entry.__eq__(self, other)]:
    [self.items[self.primary_type] == other[self.primary_type]] *)
Definition eq (h : list (option entry_attrs)) (self other : nat) : result bool :=
  match h !! self with
  | Some (Some a) =>
      rbind (getitem h self (primary_type a)) (fun x =>
      rbind (getitem h other (primary_type a)) (fun y =>
      Ok (bool_decide (x = y))))
  | _ => Raise AttributeError
  end.

End Entry.

(* ===================================================================== *)
(** * DataExtractor.get_defs *)
(* ===================================================================== *)

(** The part of the element tree [get_defs] looks at, after [__setup_tree]
    and [root.findall(self.xpath)]. *)
Record tt_elem : Type := {
  tt_class : option string;     (* tt.get('class') *)
  tt_text : option string;      (* tt.text *)
}.

Record dt_elem : Type := {
  dt_id : option string;        (* dt.get('id') *)
  dt_tts : list tt_elem;        (* dt.findall('./tt') *)
  dt_a : option (option string) (* dt.find('./a'), and its .get('href') *)
}.

Record dl_elem : Type := {
  dl_class : option string;     (* dl.get('class') *)
  dl_dts : list dt_elem;        (* dl.findall('./dt') *)
  dl_dd : option (list string)  (* dl.find('./dd'), and its itertext() *)
}.

Module DataExtractor.

Definition SINCE_LIT : string := "New in version ".
Definition DEPRECATED_LIT : string := "Deprecated since version ".

(** [elem.findtext(path)] once the element is found: its text, or the
    empty string when it has none. *)
Definition text_of (t : tt_elem) : string :=
  match tt_text t with Some s => s | None => "" end.

(** [dt.findtext('./tt')]: the text of the first [tt] child, [None] when
    there is no such child. *)
Definition findtext_tt (dt : dt_elem) : option string :=
  match dt_tts dt with
  | [] => None
  | t :: _ => Some (text_of t)
  end.

(** The loop over [tts]: the last [descname] and [descclassname] win. *)
Fixpoint scan_tts (tts : list tt_elem) (tt_name tt_classname : string)
  : string * string :=
  match tts with
  | [] => (tt_name, tt_classname)
  | t :: tts' =>
      if bool_decide (tt_class t = Some "descname")
      then scan_tts tts' (text_of t) tt_classname
      else if bool_decide (tt_class t = Some "descclassname")
      then scan_tts tts' tt_name (text_of t)
      else scan_tts tts' tt_name tt_classname
  end.

(** Local variables of [get_defs] that live across iterations. *)
Record locals : Type := {
  entries : list (option string * list nat);
  last_link : string;
  desc : string;
}.

Definition entry_items (dt_id : option string)
    (tt_name tt_classname desc since depr dt_link : string)
  : list (string * pyval) :=
  [("id", dt_id); ("name", Some tt_name); ("classname", Some tt_classname);
   ("description", Some desc); ("since", Some since);
   ("deprecated", Some depr); ("link", Some dt_link)].

(** [dt_link]: the term's own permalink, else the last one seen. *)
Definition link_for (url : string) (dt : dt_elem) (last_link : string)
  : result string :=
  match dt_a dt with
  | Some href => str_add url href        (* self.url + dt_link.get('href') *)
  | None => Ok last_link
  end.

(** [desc] as the term sees it: assembled from the [dd] for the last term
    of the list, left as it was for the others. *)
Definition description_for (dl : dl_elem) (is_last : bool) (desc : string)
  : string :=
  if is_last
  then match dl_dd dl with
       | Some texts => String.concat "" texts
       | None => ""
       end
  else desc.

Definition since_of (desc : string) : string :=
  match Re.search_version SINCE_LIT desc with
  | Some version => version
  | None => "0.1"
  end.

Definition deprecated_of (desc : string) : string :=
  match Re.search_version DEPRECATED_LIT desc with
  | Some version => version
  | None => ""
  end.

(** The dict handed to [Entry] for one term. *)
Definition items_for (dl : dl_elem) (is_last : bool) (dt : dt_elem)
    (desc dt_link : string) : list (string * pyval) :=
  let names := scan_tts (dt_tts dt) "" "" in
  let desc' := description_for dl is_last desc in
  entry_items (dt_id dt) (fst names) (snd names) desc'
    (since_of desc') (deprecated_of desc') dt_link.

(** [entries[dl_class].append(entry)], or [entries[dl_class] = [entry]]. *)
Definition add_entry (dl_class : option string) (entry : nat)
    (entries : list (option string * list nat)) : list (option string * list nat) :=
  match dict_get dl_class entries with
  | Some lst => dict_set dl_class (lst ++ [entry]) entries
  | None => dict_set dl_class [entry] entries
  end.

(** The body of [for i in range(0, dtslen)], for [dt = dts[i]];
    [is_last] is [i == dtslen-1]. *)
Definition do_dt (url : string) (dl : dl_elem) (is_last : bool) (dt : dt_elem)
    (lv : locals) : M pystate locals :=
  do dt_link <- lift (link_for url dt (last_link lv));
  do entry <- Entry.call (items_for dl is_last dt (desc lv) dt_link) "id";
  ret {| entries := add_entry (dl_class dl) entry (entries lv);
         last_link := match dt_a dt with
                      | Some _ => dt_link
                      | None => last_link lv
                      end;
         desc := description_for dl is_last (desc lv) |}.

(** The loop over the terms of one list. *)
Fixpoint do_dts (url : string) (dl : dl_elem) (dts : list dt_elem)
    (lv : locals) : M pystate locals :=
  match dts with
  | [] => ret lv
  | dt :: dts' =>
      do lv' <- do_dt url dl (bool_decide (dts' = [])) dt lv;
      do_dts url dl dts' lv'
  end.

(** The body of [for dl in dls]. *)
Definition do_dl (url : string) (dl : dl_elem) (lv : locals) : M pystate locals :=
  let lv0 :=
    if (1 <? length (dl_dts dl))%nat
    then {| entries := entries lv;
            last_link := last_link lv;
            desc := "see " +:+ py_str (from_option findtext_tt None
                                         (last (dl_dts dl))) |}
    else lv in
  do_dts url dl (dl_dts dl) lv0.

Fixpoint do_dls (url : string) (dls : list dl_elem) (lv : locals)
  : M pystate locals :=
  match dls with
  | [] => ret lv
  | dl :: dls' => do lv' <- do_dl url dl lv; do_dls url dls' lv'
  end.

(** [get_defs], from the definition lists [root.findall(self.xpath)]
    found in the page at [url]. *)
Definition get_defs (url : string) (dls : list dl_elem)
  : M pystate (list (option string * list nat)) :=
  do lv <- do_dls url dls {| entries := []; last_link := ""; desc := "" |};
  ret (entries lv).

End DataExtractor.

(* ===================================================================== *)
(** * Database and SphinxDatabase *)
(* ===================================================================== *)

(** What the store holds and what its queries return: [None], a string, an
    integer, an [Entry] instance, or a list of such values. *)
#[warnings="-register-all"]
Inductive value : Type :=
  | VNone
  | VStr (s : string)
  | VInt (n : Z)
  | VEntry (r : nat)
  | VList (l : list value).

Definition of_pyval (x : option string) : value :=
  match x with None => VNone | Some s => VStr s end.

Record Database : Type := {
  site_url : string;
  contents : list (string * value);
  epaths : list string;
  total_entries : Z;
  initialized : bool;
}.

(** What [initialize] obtains from outside the store: the outcome of
    [get_sphinx_version] on the start page, and for each page URL the
    outcome of reading and parsing it, that is either the exception
    [get_defs] raises before its traversal or the definition lists
    [root.findall(self.xpath)] finds.  (The [DataExtractor] constructor
    only probes the site; it catches and prints what goes wrong.) *)
Record site : Type := {
  sphinx_version : result (option string);
  page_dls : string → result (list dl_elem);
}.

Module SphinxDatabase.

(** [Database.__init__] on a new instance. *)
Definition create (url : string) : Database :=
  {| site_url := url; contents := []; epaths := [];
     total_entries := (-1)%Z; initialized := false |}.

Definition REGISTRY_links : list string :=
  [ "config.html"; "domains.html"; "builders.html";
    "markup/inline.html"; "markup/toctree.html"; "markup/para.html";
    "markup/code.html"; "ext/api.html"; "ext/appapi.html";
    "ext/autodoc.html"; "ext/autosummary.html"; "ext/builderapi.html";
    "ext/coverage.html"; "ext/doctest.html"; "ext/extlinks.html";
    "ext/graphviz.html"; "ext/ifconfig.html"; "ext/inheritance.html";
    "ext/intersphinx.html"; "ext/math.html"; "ext/oldcmarkup.html";
    "ext/refcounting.html"; "ext/todo.html"; "ext/tutorial.html";
    "ext/viewcode.html"; "templating.html" ].

(** [epath.split("/")[0]] *)
Definition primary_type (epath : string) : string := split_head "/" epath.

(** [self[key]] *)
Definition getitem (db : Database) (key : string) : result value :=
  match dict_get key (contents db) with
  | Some v => Ok v
  | None => Raise KeyError
  end.

(** [self[key] = value] *)
Definition setitem (key : string) (v : value) (db : Database) : Database :=
  {| site_url := site_url db;
     contents := dict_set key v (contents db);
     epaths := epaths db;
     total_entries := total_entries db;
     initialized := initialized db |}.

Definition set_total (n : Z) (db : Database) : Database :=
  {| site_url := site_url db; contents := contents db; epaths := epaths db;
     total_entries := n; initialized := initialized db |}.

Definition keys (db : Database) : list string := dict_keys (contents db).

Definition get_epaths (db : Database) : result (list string) :=
  if negb (initialized db) then Raise InvalidStateError
  else Ok (epaths db).

(** The loop of [expand_epath] over the stored paths; the pattern is
    compiled anew for each of them. *)
Fixpoint filter_epaths `{!Re.Library} (epath : string) (eps : list string)
  : result (list string) :=
  match eps with
  | [] => Ok []
  | ep :: eps' =>
      rbind (Re.compile_epath epath) (fun pat =>
      rbind (filter_epaths epath eps') (fun rest =>
      Ok (if pat ep then ep :: rest else rest)))
  end.

Definition has_wildcard (epath : string) : bool :=
  str_contains "*" epath || str_contains "?" epath.

Definition expand_epath `{!Re.Library} (db : Database) (epath : string)
  : result (list string) :=
  if has_wildcard epath then
    rbind (get_epaths db) (fun eps => filter_epaths epath eps)
  else
    rbind (get_epaths db) (fun eps =>
      if bool_decide (epath ∈ eps) then Ok [epath]
      else Raise ValueError).

(** The loop of [get_data] over more than one matched path: lists are
    spliced in, other values appended, [None] for a path without value. *)
Fixpoint flatten_data (db : Database) (filtered : list string) : list value :=
  match filtered with
  | [] => []
  | fe :: rest =>
      match getitem db fe with
      | Ok (VList cur_data) => cur_data ++ flatten_data db rest
      | Ok cur_data => cur_data :: flatten_data db rest
      | Raise _ => VNone :: flatten_data db rest
      end
  end.

(** The loop of the [epath is None] branch: [result.append(self[epath])]. *)
Fixpoint all_data (db : Database) (eps : list string) : result (list value) :=
  match eps with
  | [] => Ok []
  | ep :: eps' =>
      rbind (getitem db ep) (fun v =>
      rbind (all_data db eps') (fun rest => Ok (v :: rest)))
  end.

(** [get_data(epath)]; the argument is a string or [None]. *)
Definition get_data `{!Re.Library} (db : Database) (epath : option string)
  : result value :=
  if negb (isinstance_str epath) then Raise TypeError
  else
    match epath with
    | None =>                                   (* epath is None *)
        rbind (get_epaths db) (fun eps =>
        rbind (all_data db eps) (fun l => Ok (VList l)))
    | Some epath =>
        rbind (expand_epath db epath) (fun filtered_epaths =>
          if (1 <? length filtered_epaths)%nat
          then Ok (VList (flatten_data db filtered_epaths))
          else match dict_get epath (contents db) with
               | Some v => Ok v                 (* self.contents[epath] *)
               | None => Ok VNone               (* except KeyError: return None *)
               end)
    end.

(** ** initialize *)

Definition set_epaths (eps : list string) (db : Database) : Database :=
  {| site_url := site_url db; contents := contents db; epaths := eps;
     total_entries := total_entries db; initialized := initialized db |}.

Definition set_initialized (b : bool) (db : Database) : Database :=
  {| site_url := site_url db; contents := contents db; epaths := epaths db;
     total_entries := total_entries db; initialized := b |}.

(** The store and the interpreter state are both mutated by
    [initialize]. *)
Definition get_db : M (Database * pystate) Database :=
  fun s => (Ok (fst s), s).

Definition modify_db (f : Database → Database) : M (Database * pystate) unit :=
  fun s => (Ok tt, (f (fst s), snd s)).

Definition on_py {A} (m : M pystate A) : M (Database * pystate) A :=
  fun s => let '(r, st) := m (snd s) in (r, (fst s, st)).

(** [_e in cur_entries]: each element in turn, identity first, then
    [==]; comparing a value that is not an entry with an entry ends in
    [Entry.__eq__] indexing that value by the primary type, a TypeError. *)
Fixpoint contains (h : list (option entry_attrs)) (_e : nat)
    (cur_entries : list value) : result bool :=
  match cur_entries with
  | [] => Ok false
  | VEntry x :: rest =>
      if Nat.eqb x _e then Ok true
      else rbind (Entry.eq h x _e) (fun b =>
             if b then Ok true else contains h _e rest)
  | _ :: _ => Raise TypeError
  end.

(** The loop collecting [unique_entries]: the [_e] of [_entries] with
    [_e not in cur_entries]. *)
Fixpoint unique_entries (h : list (option entry_attrs))
    (cur_entries : list value) (_entries : list nat) : result (list nat) :=
  match _entries with
  | [] => Ok []
  | _e :: rest =>
      rbind (contains h _e cur_entries) (fun b =>
      rbind (unique_entries h cur_entries rest) (fun u =>
      Ok (if b then u else _e :: u)))
  end.

(** The body of [for _def in defs], for [_entries = defs[_def]]. *)
Definition merge_def (kv : option string * list nat) : M (Database * pystate) unit :=
  do _key <- lift (str_add "data/type/" (fst kv));
  fun s =>
    let db := fst s in
    let _entries := snd kv in
    match dict_get _key (contents db) with
    | Some (VList cur_entries) =>                       (* _key in self *)
        match unique_entries (heap (snd s)) cur_entries _entries with
        | Ok unique =>
            (Ok tt,
             (set_total (total_entries db + Z.of_nat (length unique))
                (setitem _key (VList (cur_entries ++ map VEntry unique)) db),
              snd s))
        | Raise e => (Raise e, s)
        end
    | Some _ => (Raise TypeError, s)
    | None =>
        (Ok tt,
         (set_total (total_entries db + Z.of_nat (length _entries))
            (setitem _key (VList (map VEntry _entries)) db),
          snd s))
    end.

(** The body of [for link in links]. *)
Definition do_link (w : site) (link : string) : M (Database * pystate) unit :=
  do db <- get_db;
  let url := site_url db +:+ "/" +:+ link in
  do dls <- lift (page_dls w url);
  do defs <- on_py (DataExtractor.get_defs url dls);
  for_each defs merge_def.

Definition initialize (w : site) : M (Database * pystate) unit :=
  fun s =>
    if negb (initialized (fst s)) then
      (do parsed_version <- lift (sphinx_version w);
       modify_db (fun db =>
         setitem "metadata/sphinx/site_url" (VStr (site_url db +:+ "/index.html")) db) ;;
       modify_db (setitem "metadata/sphinx/version" (of_pyval parsed_version)) ;;
       modify_db (set_total 2) ;;
       except_KeyError (for_each REGISTRY_links (do_link w)) ;;
       modify_db (fun db => set_total (total_entries db + 1) db) ;;
       modify_db (fun db =>
         setitem "metadata/stats/total_entries" (VInt (total_entries db)) db) ;;
       modify_db (fun db => set_epaths (keys db) db) ;;
       modify_db (set_initialized true)) s
    else (Ok tt, s).

End SphinxDatabase.

(* ===================================================================== *)
(** * Writers *)
(* ===================================================================== *)

(** [check_database(database)]; the handle is a store or [None]. *)
Definition check_database (database : option Database) : result Database :=
  match database with
  | None => Raise ValueError
  | Some db =>
      if negb (initialized db) then Raise ValueError
      else Ok db
  end.

Inductive writer_class : Type :=
  | TextMateWriter
  | ListWriter
  | CSVWriter
  | HTMLWriter.

(** The attributes [Writer.__init__] sets. *)
Record Writer : Type := {
  wclass : writer_class;
  database : Database;
  outdir : string;
}.

Module Writers.
Section Init.
Context {relib : Re.Library}.
(** The file system, as the constructors see it: [create_path] on the
    resolved output directory, and reading the HTML templates. *)
Variable create_path : string → result string.
Variable read_templates : result unit.

(** [Writer.__init__(self, database, outdir)] *)
Definition Writer_init (cls : writer_class) (db : option Database)
    (dir : string) : result Writer :=
  rbind (check_database db) (fun d =>
  rbind (create_path dir) (fun p =>
  Ok {| wclass := cls; database := d; outdir := p |})).

(** The constructor of each writer class: every one starts with
    [super().__init__(database, outdir)]; [HTMLWriter] then asks the
    store for the Sphinx version and loads its templates. *)
Definition construct (cls : writer_class) (db : option Database)
    (dir : string) : result Writer :=
  rbind (Writer_init cls db dir) (fun self =>
    match cls with
    | HTMLWriter =>
        rbind (SphinxDatabase.get_data (database self)
                 (Some "metadata/sphinx/version")) (fun _ =>
        rbind read_templates (fun _ => Ok self))
    | _ => Ok self
    end).
End Init.
End Writers.


(* ===================================================================== *)
(** * Reference semantics and sample inputs *)
(* ===================================================================== *)

Module Glob.
(** Glob matching as the specification words it: ['*'] stands for zero or
    more of any character, ['?'] for exactly one of any character, letters
    compare case-insensitively, and the pattern covers the whole key. *)
Fixpoint matches (pattern key : string) {struct pattern} : bool :=
  match pattern with
  | EmptyString =>
      match key with EmptyString => true | String _ _ => false end
  | String c pattern' =>
      if Ascii.eqb c "*" then
        (fix run (key : string) : bool :=
           matches pattern' key ||
           match key with
           | EmptyString => false
           | String _ key' => run key'
           end) key
      else
        match key with
        | EmptyString => false
        | String x key' =>
            (Ascii.eqb c "?" || Re.ci_eqb c x) && matches pattern' key'
        end
  end.
End Glob.

Module Stats.

(** The entries a stored value holds: the elements of a list. *)
Definition entries_of (v : value) : list value :=
  match v with VList l => l | _ => [] end.

(** All entries of the store, key after key. *)
Definition stored_entries (db : Database) : list value :=
  concat (map entries_of (dict_values (contents db))).

(** The number of entries of the store. *)
Definition entry_count (db : Database) : Z :=
  Z.of_nat (length (stored_entries db)).

(** The id of a stored entry. *)
Definition id_of (h : list (option entry_attrs)) (v : value) : option pyval :=
  match v with
  | VEntry r =>
      match Entry.getitem h r "id" with
      | Ok x => Some x
      | Raise _ => None
      end
  | _ => None
  end.


(** The number of strictly unique entries by id, category by category:
    under each key the distinct ids of its entries are counted. *)
Definition unique_count (h : list (option entry_attrs)) (db : Database) : Z :=
  Z.of_nat (length (concat (map (fun v => remove_dups (omap (id_of h) (entries_of v)))
                              (dict_values (contents db))))).

End Stats.

Module Sample.

Definition url : string := "http://sphinx.example".

(** A list of two roles sharing one description; only the first term has
    a permalink, and the second has a qualifying prefix before its name. *)
Definition term1 : dt_elem :=
  {| dt_id := Some "role-a";
     dt_tts := [{| tt_class := Some "descname"; tt_text := Some ":a:" |}];
     dt_a := Some (Some "#role-a") |}.

Definition term2 : dt_elem :=
  {| dt_id := Some "role-b";
     dt_tts := [{| tt_class := Some "descclassname"; tt_text := Some "mod." |};
                {| tt_class := Some "descname"; tt_text := Some "b" |}];
     dt_a := None |}.

Definition shared_list : dl_elem :=
  {| dl_class := Some "role";
     dl_dts := [term1; term2];
     dl_dd := Some ["Shared text. "; "New in version 1.4. Some details."] |}.

(** A function definition; the first page of [site_overloads] shows it in
    two lists, both times under the id [f]. *)
Definition overload : dt_elem :=
  {| dt_id := Some "f";
     dt_tts := [{| tt_class := Some "descname"; tt_text := Some "f" |}];
     dt_a := Some (Some "#f") |}.

Definition function_list : dl_elem :=
  {| dl_class := Some "function"; dl_dts := [overload]; dl_dd := Some ["A function."] |}.

Definition class_list : dl_elem :=
  {| dl_class := Some "class";
     dl_dts := [{| dt_id := Some "C";
                   dt_tts := [{| tt_class := Some "descname"; tt_text := Some "C" |}];
                   dt_a := Some (Some "#C") |}];
     dl_dd := Some ["A class."] |}.

Definition confval_list : dl_elem :=
  {| dl_class := Some "confval";
     dl_dts := [{| dt_id := Some "confval-x";
                   dt_tts := [{| tt_class := Some "descname"; tt_text := Some "x" |}];
                   dt_a := Some (Some "#confval-x") |}];
     dl_dd := Some ["A setting."] |}.

(** A site whose first page defines [f] twice; the other pages are empty. *)
Definition site_overloads : site :=
  {| sphinx_version := Ok (Some "1.2");
     page_dls := fun u =>
       if bool_decide (u = url +:+ "/config.html")
       then Ok [function_list; function_list]
       else Ok [] |}.

(** A site with one role list, one class and one setting. *)
Definition site_small : site :=
  {| sphinx_version := Ok (Some "1.2");
     page_dls := fun u =>
       if bool_decide (u = url +:+ "/config.html")
       then Ok [shared_list; class_list; confval_list]
       else Ok [] |}.

(** A [re] library for the sample runs.  Of the patterns with further
    syntax it knows [data/type/[rc].*?], whose character class stands for
    one of the letters r and c, and it refuses every other one, as
    [re.compile] refuses [data/type/(.*?] for its parenthesis left open. *)
Definition re_library : Re.Library := fun pattern =>
  if bool_decide (pattern = "data/type/[rc].*?")
  then Some (fun key =>
               match Re.ci_strip "data/type/" key with
               | Some (String c _) => Re.ci_eqb "r" c || Re.ci_eqb "c" c
               | _ => false
               end)
  else None.

Definition run (w : site) : result unit * (Database * pystate) :=
  SphinxDatabase.initialize w (SphinxDatabase.create url, empty_state).

Definition store (w : site) : Database := fst (snd (run w)).

End Sample.

(* ===================================================================== *)
(** * The rest of the Database class *)
(* ===================================================================== *)

(** The [Database] instances and the module-level [__db_classcache__]; a
    cell is [None] between [__new__] and [__init__]. *)
Record dbstate : Type := {
  db_heap : list (option Database);
  db_classcache : gmap string nat;
}.

Module DatabaseBase.

(** [Database.__new__(cls, site_url, use_cached)] *)
Definition new (url : string) (use_cached : bool) (st : dbstate) : nat * dbstate :=
  let fresh :=
    (length (db_heap st),
     {| db_heap := db_heap st ++ [None]; db_classcache := db_classcache st |}) in
  match db_classcache st !! url with
  | None => fresh
  | Some obj => if negb use_cached then fresh else (obj, st)
  end.

(** [Database.__init__(self, site_url, *args, **kwargs)] *)
Definition init (self : nat) (url : string) (st : dbstate) : dbstate :=
  let already :=
    match db_heap st !! self with
    | Some (Some db) => initialized db   (* hasattr(...) and ... is True *)
    | _ => false
    end in
  if already then st
  else {| db_heap := <[self := Some (SphinxDatabase.create url)]> (db_heap st);
          db_classcache := <[url := self]> (db_classcache st) |}.

(** The call [SphinxDatabase(site_url, use_cached)]. *)
Definition call (url : string) (use_cached : bool) (st : dbstate) : nat * dbstate :=
  let '(self, st1) := new url use_cached st in
  (self, init self url st1).

(** [Database.__len__]: starts at -1 and adds the length of each key. *)
Definition __len__ (db : Database) : Z :=
  fold_left (fun result itm => (result + Z.of_nat (String.length itm))%Z)
    (SphinxDatabase.keys db) (-1)%Z.

(** The builtin [len(db)], which refuses a negative [__len__]. *)
Definition len (db : Database) : result Z :=
  if (__len__ db <? 0)%Z then Raise ValueError else Ok (__len__ db).

Definition has_key (db : Database) (key : string) : bool :=
  bool_decide (key ∈ SphinxDatabase.keys db).

Definition values (db : Database) : list value := dict_values (contents db).

(** Every site URL of the cache names an instance that [__init__] has set
    up for that URL. *)
Definition cache_ok (st : dbstate) : Prop :=
  ∀ url i, db_classcache st !! url = Some i →
    ∃ db, db_heap st !! i = Some (Some db) ∧ site_url db = url.

(** The state of a module just imported. *)
Definition empty : dbstate := {| db_heap := []; db_classcache := ∅ |}.

End DatabaseBase.

(* ===================================================================== *)
(** * utils.py *)
(* ===================================================================== *)

Module Utils.

(** The double quote character. *)
Definition dquote : ascii := ascii_of_nat 34.

(** [s.replace(old, new)] for a non-empty [old]: the occurrences of [old]
    are taken from left to right, without overlap; [skip] counts the
    characters of an occurrence still to pass over. *)
Fixpoint replace_from (old new : string) (skip : nat) (s : string) : string :=
  match s with
  | EmptyString => EmptyString
  | String c s' =>
      match skip with
      | S k => replace_from old new k s'
      | O =>
          if String.prefix old s
          then new +:+ replace_from old new (String.length old - 1) s'
          else String c (replace_from old new 0 s')
      end
  end.

Definition str_replace (old new s : string) : string := replace_from old new 0 s.

(** [html_escape_table.get(c, c)] *)
Definition html_escape_table (c : ascii) : string :=
  if Ascii.eqb c "&" then "&amp;"
  else if Ascii.eqb c dquote then "&quot;"
  else if Ascii.eqb c "'" then "&apos;"
  else if Ascii.eqb c ">" then "&gt;"
  else if Ascii.eqb c "<" then "&lt;"
  else String c EmptyString.

(** [''.join(html_escape_table.get(c, c) for c in text)] *)
Fixpoint escape_chars (text : string) : string :=
  match text with
  | EmptyString => EmptyString
  | String c rest => html_escape_table c +:+ escape_chars rest
  end.

Definition html_escape (text : string) (convert_spaces : bool) : string :=
  if convert_spaces
  then str_replace "  " "&nbsp; " (str_replace "  " "&nbsp; " (escape_chars text))
  else escape_chars text.

(** What a call of a function wrapped by [deprecated] comes to: a value, an
    exception of the wrapped function, or the DeprecationWarning the
    wrapper raises itself. *)
Inductive outcome (A : Type) : Type :=
  | Returns (v : A)
  | Raises (e : exn)
  | RaisesDeprecationWarning.
Arguments Returns {A} v.
Arguments Raises {A} e.
Arguments RaisesDeprecationWarning {A}.

(** A call of [deprecated(level)(func)], for an integer [level], with the
    call of [func] on the same arguments as a computation; the wrapper
    returns [None] where it returns.  The warning is issued under the
    default filters, where issuing it raises nothing. *)
Definition deprecated {S A} (level : Z) (func : M S A)
  : S → outcome (option A) * S :=
  fun s =>
    if (level <=? 0)%Z then
      match func s with
      | (Ok _, s') => (Returns None, s')
      | (Raise e, s') => (Raises e, s')
      end
    else if (level =? 1)%Z then (Returns None, s)
    else if (2 <=? level)%Z then (RaisesDeprecationWarning, s)
    else (Returns None, s).

End Utils.

(* ===================================================================== *)
(** * CSVWriter *)
(* ===================================================================== *)

Module CSVWriterM.

(** One double quote, and two. *)
Definition quote : string := String Utils.dquote EmptyString.
Definition quotes : string := String Utils.dquote quote.

(** [CSVWriter._sanitize_data(value)] *)
Definition _sanitize_data (value : string) : string :=
  let value := Utils.str_replace quote quotes value in
  quote +:+ value +:+ quote.

(** [CSVWriter._sanitize_epaths(epaths, primary_type)] *)
Fixpoint _sanitize_epaths (epaths : list string) (primary_type : string)
  : result unit :=
  match epaths with
  | [] => Ok tt
  | epath :: rest =>
      if bool_decide (SphinxDatabase.primary_type epath ≠ primary_type)
      then Raise ValueError
      else _sanitize_epaths rest primary_type
  end.

End CSVWriterM.

(* ===================================================================== *)
(** * main.py *)
(* ===================================================================== *)

Module Main.

Definition VALID_FORMATS : list string :=
  ["csv"; "html"; "tmprefs"; "list"; "listplain"].

(** [needle in text] on strings. *)
Fixpoint str_in (needle text : string) : bool :=
  if String.prefix needle text then true
  else match text with
       | EmptyString => false
       | String _ rest => str_in needle rest
       end.

(** [s.split(sep)] for a one-character [sep]. *)
Fixpoint split (sep : ascii) (s : string) : list string :=
  match s with
  | EmptyString => [EmptyString]
  | String c rest =>
      if Ascii.eqb c sep then EmptyString :: split sep rest
      else match split sep rest with
           | head :: tail => String c head :: tail
           | [] => [String c EmptyString]
           end
  end.

(** How the choice of formats in [main] ends: the list of formats, or the
    CLIError for a format that is not recognized. *)
Inductive formats_outcome : Type :=
  | Formats (formats : list string)
  | CLIError (format : string).

(** The loop [for format in formats: if format not in valid_formats]. *)
Fixpoint check_formats (formats : list string) : option string :=
  match formats with
  | [] => None
  | format :: rest =>
      if bool_decide (format ∈ VALID_FORMATS) then check_formats rest
      else Some format
  end.

(** The part of [main] that turns [args.format] into [formats]. *)
Definition select_formats (formatstr : option string) : formats_outcome :=
  match formatstr with
  | None => Formats ["stdout"]
  | Some formatstr =>
      if str_in "all" formatstr then Formats VALID_FORMATS
      else
        let formats := split ":" formatstr in
        match check_formats formats with
        | Some format => CLIError format
        | None => Formats formats
        end
  end.

End Main.

(* ===================================================================== *)
(** * The extraction as a function of the page *)
(* ===================================================================== *)

(** What [get_defs] computes when every call of [Entry] makes a new
    instance: the attributes of the instances, in the order of their
    creation, and the local variables, with [n] the address of the next
    instance. *)
Module Pure.
Import DataExtractor.

(** The link of a term: from its own anchor, else the last link. *)
Definition link_of (url : string) (dt : dt_elem) (last : string) : string :=
  match dt_a dt with
  | Some (Some href) => url +:+ href
  | _ => last
  end.

(** The links of the terms of a document, in document order. *)
Fixpoint inherited_links (url last : string) (dts : list dt_elem) : list string :=
  match dts with
  | [] => []
  | dt :: rest =>
      link_of url dt last :: inherited_links url (link_of url dt last) rest
  end.

Fixpoint dts_cells (url : string) (dl : dl_elem) (dts : list dt_elem)
    (last desc : string) : list entry_attrs :=
  match dts with
  | [] => []
  | dt :: rest =>
      {| primary_type := "id";
         items := items_for dl (bool_decide (rest = [])) dt desc
                    (link_of url dt last) |}
      :: dts_cells url dl rest (link_of url dt last)
           (description_for dl (bool_decide (rest = [])) desc)
  end.

Fixpoint dts_locals (url : string) (dl : dl_elem) (dts : list dt_elem)
    (lv : locals) (n : nat) : locals :=
  match dts with
  | [] => lv
  | dt :: rest =>
      dts_locals url dl rest
        {| entries := add_entry (dl_class dl) n (entries lv);
           last_link := link_of url dt (last_link lv);
           desc := description_for dl (bool_decide (rest = [])) (desc lv) |}
        (S n)
  end.

(** [desc] when the loop over the terms of a list starts. *)
Definition dl_desc (dl : dl_elem) (desc : string) : string :=
  if (1 <? length (dl_dts dl))%nat
  then "see " +:+ py_str (from_option findtext_tt None (last (dl_dts dl)))
  else desc.

Definition dl_cells (url : string) (dl : dl_elem) (lv : locals) : list entry_attrs :=
  dts_cells url dl (dl_dts dl) (last_link lv) (dl_desc dl (desc lv)).

Definition dl_locals (url : string) (dl : dl_elem) (lv : locals) (n : nat) : locals :=
  dts_locals url dl (dl_dts dl)
    {| entries := entries lv; last_link := last_link lv;
       desc := dl_desc dl (desc lv) |} n.

Fixpoint dls_cells (url : string) (dls : list dl_elem) (lv : locals) (n : nat)
  : list entry_attrs :=
  match dls with
  | [] => []
  | dl :: rest =>
      dl_cells url dl lv
      ++ dls_cells url rest (dl_locals url dl lv n) (n + length (dl_dts dl))
  end.

Fixpoint dls_locals (url : string) (dls : list dl_elem) (lv : locals) (n : nat)
  : locals :=
  match dls with
  | [] => lv
  | dl :: rest =>
      dls_locals url rest (dl_locals url dl lv n) (n + length (dl_dts dl))
  end.

(** The terms of a page, in document order. *)
Definition all_dts (dls : list dl_elem) : list dt_elem :=
  concat (map dl_dts dls).

(** A page on which every [Entry] is new and every anchor has its [href]. *)
Definition plain_term (dt : dt_elem) : Prop :=
  dt_id dt ≠ Some "id" ∧ dt_a dt ≠ Some None.

(** An item of an instance. *)
Definition item (key : string) (a : entry_attrs) : option pyval :=
  dict_get key (items a).

End Pure.

(* ===================================================================== *)
(** * Invariants and the phases of initialize *)
(* ===================================================================== *)

(** Every key of the class cache is a primary type; [get_defs] only ever
    uses ["id"]. *)
Definition cache_keys_id (st : pystate) : Prop :=
  ∀ k r, entry_classcache st !! k = Some r → k = "id".

(** Exceptions and results can be compared. *)
#[global] Instance exn_eq_dec : EqDecision exn.
Proof. solve_decision. Defined.

#[global] Instance result_eq_dec {A} `{EqDecision A} : EqDecision (result A).
Proof. solve_decision. Defined.

Module Sample2.

(** A site whose second page cannot be read. *)
Definition site_unreadable : site :=
  {| sphinx_version := Ok (Some "1.2");
     page_dls := fun u =>
       if bool_decide (u = Sample.url +:+ "/domains.html")
       then Raise IOError
       else Ok [Sample.function_list] |}.

(** A site whose second page ends in a KeyError; the pages after it define
    a class. *)
Definition site_keyerror : site :=
  {| sphinx_version := Ok (Some "1.2");
     page_dls := fun u =>
       if bool_decide (u = Sample.url +:+ "/config.html")
       then Ok [Sample.function_list]
       else if bool_decide (u = Sample.url +:+ "/domains.html")
       then Raise KeyError
       else Ok [Sample.class_list] |}.

(** A site whose first two pages both define the function [f]; the second
    also defines a class. *)
Definition site_two_pages : site :=
  {| sphinx_version := Ok (Some "1.2");
     page_dls := fun u =>
       if bool_decide (u = Sample.url +:+ "/config.html")
       then Ok [Sample.function_list]
       else if bool_decide (u = Sample.url +:+ "/domains.html")
       then Ok [Sample.function_list; Sample.class_list]
       else Ok [] |}.

End Sample2.

(** The keys [initialize] writes. *)
Definition SITE_KEY : string := "metadata/sphinx/site_url".
Definition VERSION_KEY : string := "metadata/sphinx/version".

Definition is_data_key (k : string) : Prop := ∃ cls, k = "data/type/" +:+ cls.

(** While the pages are read the store is not initialized, its keys are
    the two metadata keys followed by distinct data keys, and the two
    metadata values stay what they were set to. *)
Definition reading (url : string) (v : option string) (db : Database) : Prop :=
  initialized db = false ∧
  dict_get SITE_KEY (contents db) = Some (VStr (url +:+ "/index.html")) ∧
  dict_get VERSION_KEY (contents db) = Some (of_pyval v) ∧
  ∃ data_keys,
    SphinxDatabase.keys db = SITE_KEY :: VERSION_KEY :: data_keys ∧
    Forall is_data_key data_keys ∧
    NoDup data_keys.

(** An instance made by [get_defs]: initialized, with the primary type
    ["id"] and an id among its items. *)
Definition id_entry (h : list (option entry_attrs)) (r : nat) : Prop :=
  ∃ its v, h !! r = Some (Some {| primary_type := "id"; items := its |}) ∧
           dict_get "id" its = Some v.

(** A page as HTML wants it: the ids of its terms differ from one another;
    and no term has the string ["id"] for id or an anchor without
    [href]. *)
Definition page_ok (dls : list dl_elem) : Prop :=
  Forall Pure.plain_term (Pure.all_dts dls) ∧
  NoDup (map dt_id (Pure.all_dts dls)).

(** The id of an instance, as [Entry.__eq__] reads it. *)
Definition entry_id (h : list (option entry_attrs)) (r : nat) : result pyval :=
  Entry.getitem h r "id".

(** A list of instances made by [get_defs], no two with one id. *)
Definition unique_refs (h : list (option entry_attrs)) (rs : list nat) : Prop :=
  Forall (id_entry h) rs ∧ NoDup (map (entry_id h) rs).

(** A stored value that is a list holds such instances. *)
Definition entries_ok (h : list (option entry_attrs)) (v : value) : Prop :=
  match v with
  | VList l => ∃ rs, l = map VEntry rs ∧ unique_refs h rs
  | _ => True
  end.

(** Under every key of the store the ids are unique. *)
Definition stored_unique (h : list (option entry_attrs)) (db : Database) : Prop :=
  Forall (fun kv => entries_ok h (snd kv)) (contents db).

(** While the pages of the site at [url] are read: the store is the one of
    that site, the class cache has the one key, and under every key of the
    store the ids are unique. *)
Definition unique_so_far (url : string) (s : Database * pystate) : Prop :=
  site_url (fst s) = url ∧
  cache_keys_id (snd s) ∧
  stored_unique (heap (snd s)) (fst s).

(** Lists of addresses without repetition, all from [n] up to [m]. *)
Definition lists_in (n m : nat) (es : list (option string * list nat)) : Prop :=
  Forall (fun kv => NoDup (snd kv) ∧ Forall (fun r => n ≤ r < m) (snd kv)) es.

(** The character [c] occurs in [s]. *)
Fixpoint has_char (c : ascii) (s : string) : bool :=
  match s with
  | EmptyString => false
  | String x rest => Ascii.eqb x c || has_char c rest
  end.

(** [lit] occurs in [s], letters compared as under re.IGNORECASE. *)
Fixpoint ci_occurs (lit s : string) : bool :=
  match Re.ci_strip lit s with
  | Some _ => true
  | None =>
      match s with
      | EmptyString => false
      | String _ s' => ci_occurs lit s'
      end
  end.

(** A string of decimal digits; a version [major.minor]. *)
Definition all_digits (s : string) : bool :=
  forallb Re.is_digit (list_ascii_of_string s).

Definition version_shape (v : string) : Prop :=
  ∃ major minor, v = major +:+ "." +:+ minor ∧
                 major ≠ "" ∧ minor ≠ "" ∧
                 all_digits major = true ∧ all_digits minor = true.

Module Phases.
Import SphinxDatabase.

(** The store once the metadata are acquired, before the pages are read. *)
Definition start (parsed_version : option string) (db : Database) : Database :=
  set_total 2
    (setitem "metadata/sphinx/version" (of_pyval parsed_version)
       (setitem "metadata/sphinx/site_url" (VStr (site_url db +:+ "/index.html")) db)).

(** The loop over the registered pages, inside its [try]. *)
Definition pages (w : site) : M (Database * pystate) unit :=
  except_KeyError (for_each REGISTRY_links (do_link w)).

(** The statements after the loop. *)
Definition finish (db : Database) : Database :=
  let db1 := set_total (total_entries db + 1) db in
  let db2 := setitem "metadata/stats/total_entries" (VInt (total_entries db1)) db1 in
  set_initialized true (set_epaths (keys db2) db2).

Definition STATS_KEY : string := "metadata/stats/total_entries".

End Phases.

(* ===================================================================== *)
(** * Properties kept by computations *)
(* ===================================================================== *)

Lemma keeps_ret {S A} (P : S → Prop) (a : A) : keeps P (ret a).
Proof. intros s r s' HP [= _ <-]. done. Qed.

Lemma keeps_lift {S A} (P : S → Prop) (x : result A) : keeps P (lift x).
Proof. intros s r s' HP [= _ <-]. done. Qed.

Lemma keeps_bind {S A B} (P : S → Prop) (m : M S A) (k : A → M S B) :
  keeps P m → (∀ a, keeps P (k a)) → keeps P (bind m k).
Proof.
  intros Hm Hk s r s' HP. unfold bind.
  destruct (m s) as [[a|e] s1] eqn:E.
  - intros H. eapply Hk; [|exact H]. eapply Hm; [exact HP | exact E].
  - intros [= _ <-]. eapply Hm; [exact HP | exact E].
Qed.

Lemma keeps_for_each {S A} (P : S → Prop) (l : list A) (body : A → M S unit) :
  (∀ x, keeps P (body x)) → keeps P (for_each l body).
Proof.
  intros Hb. induction l as [|x l IH]; cbn [for_each].
  - apply keeps_ret.
  - apply keeps_bind; [apply Hb | intros _; apply IH].
Qed.

Lemma keeps_except_KeyError {S} (P : S → Prop) (m : M S unit) :
  keeps P m → keeps P (except_KeyError m).
Proof.
  intros Hm s r s' HP. unfold except_KeyError.
  destruct (m s) as [[a|e] s1] eqn:E.
  - intros [= _ <-]. eapply Hm; [exact HP | exact E].
  - destruct e; intros [= _ <-]; (eapply Hm; [exact HP | exact E]).
Qed.

(* ===================================================================== *)
(** * Properties of dicts *)
(* ===================================================================== *)

Lemma dict_get_set {K V} `{EqDecision K} (k : K) (v : V) (d : list (K * V)) :
  dict_get k (dict_set k v d) = Some v.
Proof.
  induction d as [|[k' v'] d IH]; cbn.
  - by rewrite decide_True.
  - destruct (decide (k = k')) as [->|Hne]; cbn.
    + by rewrite decide_True.
    + by rewrite decide_False.
Qed.

Lemma dict_get_set_ne {V} (k k' : string) (v : V) (d : list (string * V)) :
  k ≠ k' → dict_get k (dict_set k' v d) = dict_get k d.
Proof.
  intros Hne. induction d as [|[k0 v0] d IH]; cbn.
  - by rewrite decide_False.
  - destruct (decide (k' = k0)) as [->|Hne0]; cbn.
    + by rewrite !decide_False.
    + destruct (decide (k = k0)); [done | apply IH].
Qed.

(* ===================================================================== *)
(** * Properties of the Entry cache *)
(* ===================================================================== *)

Lemma cache_keys_id_empty : cache_keys_id empty_state.
Proof. intros k r H. cbn in H. by rewrite lookup_empty in H. Qed.

Lemma cache_get_miss st key :
  cache_keys_id st → key ≠ Some "id" → Entry.cache_get key st = None.
Proof.
  intros Hc Hk. destruct key as [k|]; [|done]. cbn.
  destruct (entry_classcache st !! k) as [r|] eqn:E; [|done].
  apply Hc in E. congruence.
Qed.

(** An id other than the string ["id"] never finds a cached instance: the
    call allocates a new object and files it under ["id"]. *)
Lemma Entry_call_fresh st its key :
  cache_keys_id st →
  dict_get "id" its = Some key →
  key ≠ Some "id" →
  Entry.call its "id" st =
    (Ok (length (heap st)),
     {| heap := heap st ++ [Some {| primary_type := "id"; items := its |}];
        entry_classcache := <["id" := length (heap st)]> (entry_classcache st) |}).
Proof.
  intros Hc Hid Hk.
  unfold Entry.call, bind, Entry.new. rewrite Hid, (cache_get_miss _ _ Hc Hk).
  unfold Entry.init, Entry.has_items, ret. cbn.
  rewrite lookup_app_r by lia. rewrite Nat.sub_diag. cbn.
  f_equal. f_equal.
  replace (length (heap st)) with (length (heap st) + 0) at 1 by lia.
  by rewrite insert_app_r.
Qed.

Lemma cache_keys_id_insert st h n :
  cache_keys_id st →
  cache_keys_id {| heap := h; entry_classcache := <["id" := n]> (entry_classcache st) |}.
Proof.
  intros Hc k r. cbn. destruct (decide (k = "id")) as [->|Hne]; [done|].
  rewrite lookup_insert_ne by done. apply Hc.
Qed.

(** Whatever it returns, a call with the primary type ["id"] leaves a cache
    whose only key is ["id"]. *)
Lemma Entry_call_cache_keys st its r st' :
  cache_keys_id st →
  Entry.call its "id" st = (r, st') →
  cache_keys_id st'.
Proof.
  intros Hc. unfold Entry.call, bind, Entry.new, Entry.init, ret.
  destruct (dict_get "id" its) as [key|]; [|by intros [= _ <-]].
  destruct (Entry.cache_get key st) as [obj|].
  - destruct (Entry.has_items obj st); intros [= _ <-]; [done|].
    by apply cache_keys_id_insert.
  - destruct (Entry.has_items _ _); intros [= _ <-]; [done|].
    by apply (cache_keys_id_insert st).
Qed.

(** In every state the extraction can reach, two constructions with one id,
    other than the string ["id"], give two instances. *)
Lemma Entry_same_id_never_shared st its1 its2 key :
  cache_keys_id st →
  dict_get "id" its1 = Some key →
  dict_get "id" its2 = Some key →
  key ≠ Some "id" →
  ∃ st1 st2,
    Entry.call its1 "id" st = (Ok (length (heap st)), st1) ∧
    Entry.call its2 "id" st1 = (Ok (S (length (heap st))), st2).
Proof.
  intros Hc H1 H2 Hk. eexists _, _. split.
  - by apply (Entry_call_fresh st its1 key).
  - rewrite (Entry_call_fresh _ its2 key);
      [|by apply cache_keys_id_insert | done | done].
    cbn [heap]. rewrite length_app. cbn [length].
    by replace (length (heap st) + 1) with (S (length (heap st))) by lia.
Qed.

(** C1.  The cache does not canonicalise by id: built twice with the id
    ["role-a"] (the second time with another link), [Entry] yields two
    instances, at addresses 0 and 1, each keeping its own fields.
    [__init__] files the instance under the primary type ["id"], while
    [__new__] looks the id value up. *)
Lemma Entry_same_id_two_instances :
  let its1 := DataExtractor.entry_items (Some "role-a") ":a:" "" "d" "0.1" "" "l1" in
  let its2 := DataExtractor.entry_items (Some "role-a") ":a:" "" "d" "0.1" "" "l2" in
  ∃ st1 st2,
    Entry.call its1 "id" empty_state = (Ok 0, st1) ∧
    Entry.call its2 "id" st1 = (Ok 1, st2) ∧
    Entry.getitem (heap st2) 0 "link" = Ok (Some "l1") ∧
    Entry.getitem (heap st2) 1 "link" = Ok (Some "l2").
Proof.
  intros its1 its2.
  exists (snd (Entry.call its1 "id" empty_state)).
  exists (snd (Entry.call its2 "id" (snd (Entry.call its1 "id" empty_state)))).
  rewrite (Entry_call_fresh empty_state its1 (Some "role-a"))
    by (apply cache_keys_id_empty || done).
  cbn [snd].
  rewrite (Entry_call_fresh _ its2 (Some "role-a"))
    by (apply cache_keys_id_insert, cache_keys_id_empty || done).
  done.
Qed.

(* ===================================================================== *)
(** * The code's matching against glob matching *)
(* ===================================================================== *)

Lemma re_matches_lazy (p : list Re.atom) (s : string) :
  Re.matches (Re.LazyDots :: p) s =
    Re.matches p s ||
    match s with
    | EmptyString => false
    | String x s' => Re.dot_ok x && Re.matches (Re.LazyDots :: p) s'
    end.
Proof. by destruct s. Qed.

Lemma glob_matches_star (p k : string) :
  Glob.matches (String "*" p) k =
    Glob.matches p k ||
    match k with
    | EmptyString => false
    | String _ k' => Glob.matches (String "*" p) k'
    end.
Proof. by destruct k. Qed.

Lemma glob_matches_char (c : ascii) (p k : string) :
  Ascii.eqb c "*" = false →
  Glob.matches (String c p) k =
    match k with
    | EmptyString => false
    | String x k' => (Ascii.eqb c "?" || Re.ci_eqb c x) && Glob.matches p k'
    end.
Proof. intros H. cbn [Glob.matches]. by rewrite H. Qed.

Lemma glob_star_any (k : string) : Glob.matches "*" k = true.
Proof.
  induction k as [|x k IH]; [done|].
  rewrite glob_matches_star, IH. apply orb_true_r.
Qed.

(** What [re.match] accepts is what the glob pattern followed by one more
    ['*'] accepts: the compiled pattern has no anchor at its end.  (A dot
    in the pattern would stand for any character, and the dot of the
    regular expression does not match a newline.) *)
Lemma matches_glob_open (p : string) :
  ∀ (pat : list Re.atom) (k : string),
    Re.parse_epath p = Some pat →
    str_contains "." p = false →
    str_contains Re.newline k = false →
    Re.matches pat k = Glob.matches (p +:+ "*") k.
Proof.
  induction p as [|c p IH]; intros pat k Hc Hd Hn.
  - injection Hc as <-. cbn. by rewrite glob_star_any.
  - cbn [Re.parse_epath] in Hc.
    destruct (Re.is_special c); [done|].
    destruct (Re.parse_epath p) as [pat'|] eqn:Hp; [|done].
    injection Hc as <-.
    cbn [str_contains] in Hd.
    destruct (Ascii.eqb "." c) eqn:Hdot; [done|].
    rewrite Ascii.eqb_sym in Hdot. rewrite Hdot.
    change (String c p +:+ "*") with (String c (p +:+ "*")).
    destruct (Ascii.eqb c "*") eqn:Hstar.
    + apply Ascii.eqb_eq in Hstar as ->. cbn [Ascii.eqb Bool.eqb].
      induction k as [|x k IHk].
      * rewrite re_matches_lazy, glob_matches_star. by rewrite (IH pat' "").
      * rewrite re_matches_lazy, glob_matches_star.
        cbn [str_contains] in Hn.
        destruct (Ascii.eqb Re.newline x) eqn:Hx; [done|].
        rewrite (IH pat' (String x k))
          by (done || (cbn [str_contains]; by rewrite Hx)).
        rewrite IHk by done.
        unfold Re.dot_ok. rewrite Ascii.eqb_sym, Hx. done.
    + rewrite glob_matches_char by done.
      destruct k as [|x k]; [by destruct (Ascii.eqb c "?")|].
      cbn [str_contains] in Hn.
      destruct (Ascii.eqb Re.newline x) eqn:Hx; [done|].
      destruct (Ascii.eqb c "?") eqn:Hq; cbn [Re.matches orb].
      * unfold Re.dot_ok. rewrite Ascii.eqb_sym, Hx. cbn. by apply IH.
      * f_equal. by apply IH.
Qed.

(** A second ['*'] at the end of a glob pattern changes nothing. *)
Lemma glob_star_star (q : string) :
  ∀ k, Glob.matches (q +:+ "**") k = Glob.matches (q +:+ "*") k.
Proof.
  induction q as [|c q IH]; intros k.
  - change ("" +:+ "**") with "**". change ("" +:+ "*") with "*".
    rewrite glob_matches_star, !glob_star_any. done.
  - change (String c q +:+ "**") with (String c (q +:+ "**")).
    change (String c q +:+ "*") with (String c (q +:+ "*")).
    destruct (Ascii.eqb c "*") eqn:Hstar.
    + apply Ascii.eqb_eq in Hstar as ->.
      induction k as [|x k IHk].
      * rewrite !(glob_matches_star _ ""). by rewrite IH.
      * rewrite (glob_matches_star _ (String x k)).
        rewrite (glob_matches_star (q +:+ "*") (String x k)).
        by rewrite IH, IHk.
    + rewrite !glob_matches_char by done.
      destruct k as [|x k]; [done|]. by rewrite IH.
Qed.

Lemma ci_eqb_slash (x : ascii) : Re.ci_eqb "/" x = Ascii.eqb x "/".
Proof. destruct x as [[] [] [] [] [] [] [] []]; reflexivity. Qed.

(** A literal word followed by [/*] accepts the keys with a slash whose
    first segment is the word, case-insensitively. *)
Lemma glob_segment (word : string) :
  str_contains "*" word = false →
  str_contains "?" word = false →
  (∀ c, str_contains c word = true → Re.ci_eqb c "/" = false) →
  ∀ k, Glob.matches (word +:+ "/*") k
       = Re.ci_str_eqb word (split_head "/" k) && str_contains "/" k.
Proof.
  induction word as [|c word IH]; intros Hs Hq Hw k.
  - change ("" +:+ "/*") with "/*".
    rewrite glob_matches_char by done.
    destruct k as [|x k]; [done|].
    rewrite glob_star_any, ci_eqb_slash. cbn [orb Ascii.eqb Bool.eqb].
    cbn [split_head str_contains]. rewrite (Ascii.eqb_sym "/" x).
    by destruct (Ascii.eqb x "/").
  - change (String c word +:+ "/*") with (String c (word +:+ "/*")).
    cbn [str_contains] in Hs, Hq.
    destruct (Ascii.eqb "*" c) eqn:Hcs; [done|].
    destruct (Ascii.eqb "?" c) eqn:Hcq; [done|].
    rewrite glob_matches_char by (by rewrite Ascii.eqb_sym).
    rewrite (Ascii.eqb_sym c "?"), Hcq. cbn [orb].
    destruct k as [|x k]; [done|].
    cbn [split_head str_contains]. rewrite (Ascii.eqb_sym "/" x).
    destruct (Ascii.eqb x "/") eqn:Hx.
    + apply Ascii.eqb_eq in Hx as ->.
      rewrite (Hw c) by (cbn [str_contains]; by rewrite Ascii.eqb_refl). done.
    + cbn [Re.ci_str_eqb]. rewrite IH; [by rewrite andb_assoc | done | done |].
      intros c' Hc'. apply Hw. cbn [str_contains]. rewrite Hc'.
      by destruct (Ascii.eqb c' c).
Qed.

(* ===================================================================== *)
(** * Properties of the read interface *)
(* ===================================================================== *)

Section StoreFacts.
Import SphinxDatabase.
Context {relib : Re.Library}.

(** C2.  [get_data(None)] raises TypeError on every store, whatever its
    state: the [isinstance] test comes before the [epath is None] branch
    that would collect every stored value. *)
Lemma get_data_None_raises (db : Database) :
  get_data db None = Raise TypeError.
Proof. reflexivity. Qed.

(** With a string argument the three read operations of a store that is not
    initialized raise InvalidStateError. *)
Lemma reads_need_initialize (db : Database) (epath : string) :
  initialized db = false →
  get_epaths db = Raise InvalidStateError ∧
  expand_epath db epath = Raise InvalidStateError ∧
  get_data db (Some epath) = Raise InvalidStateError.
Proof.
  intros Hi.
  assert (He : get_epaths db = Raise InvalidStateError)
    by (unfold get_epaths; by rewrite Hi).
  assert (Hx : expand_epath db epath = Raise InvalidStateError)
    by (unfold expand_epath; rewrite He; by destruct (has_wildcard epath)).
  repeat split; [done | done |].
  unfold get_data. cbn. by rewrite Hx.
Qed.

(** C8.  On a newly created store, not initialized, [get_data(None)] does
    not raise InvalidStateError but TypeError. *)
Lemma get_data_None_uninitialized :
  initialized (create Sample.url) = false ∧
  get_data (create Sample.url) None = Raise TypeError.
Proof. split; reflexivity. Qed.

(** When a pattern expands to more than one path, [get_data] returns the
    matched values in that order, lists spliced in. *)
Lemma get_data_many (db : Database) (epath : string) (eps : list string) :
  expand_epath db epath = Ok eps →
  1 < length eps →
  get_data db (Some epath) = Ok (VList (flatten_data db eps)).
Proof.
  intros Hx Hl. apply Nat.ltb_lt in Hl.
  unfold get_data, isinstance_str, negb. rewrite Hx. unfold rbind. by rewrite Hl.
Qed.

(** C3.  On a store where the pattern [data/type/rol?] matches the one
    path [data/type/role], [get_data] returns [None] and not the value
    stored there: it looks the pattern itself up in the contents. *)
Lemma get_data_single_match_is_None :
  let db := Sample.store Sample.site_small in
  expand_epath db "data/type/rol?" = Ok ["data/type/role"] ∧
  getitem db "data/type/role" = Ok (VList [VEntry 0; VEntry 1]) ∧
  get_data db (Some "data/type/rol?") = Ok VNone.
Proof. vm_compute. done. Qed.

(** C5.  The pattern [data/type/c????] covers, as a glob, the one stored
    path [data/type/class]; [expand_epath] also returns
    [data/type/confval], which only starts with a match. *)
Lemma expand_epath_matches_prefix :
  let db := Sample.store Sample.site_small in
  expand_epath db "data/type/c????" = Ok ["data/type/class"; "data/type/confval"] ∧
  filter (Glob.matches "data/type/c????") (epaths db) = ["data/type/class"].
Proof. vm_compute. done. Qed.

(** ** expand_epath *)

Lemma compile_epath_raise (epath : string) (e : exn) :
  Re.compile_epath epath = Raise e → e = ReError.
Proof.
  unfold Re.compile_epath. destruct (Re.parse_epath epath); [done|].
  destruct (Re.compile_other _); [done|]. by intros [= <-].
Qed.

Lemma compile_epath_parsed (epath : string) (pat : list Re.atom) :
  Re.parse_epath epath = Some pat →
  Re.compile_epath epath = Ok (Re.matches pat).
Proof. unfold Re.compile_epath. by intros ->. Qed.

(** The loop keeps, in stored order, the paths the compiled pattern matches
    at their start; over no path at all the pattern is not even compiled. *)
Lemma filter_epaths_unfold (epath : string) (eps : list string) :
  filter_epaths epath eps =
    match eps with
    | [] => Ok []
    | _ :: _ =>
        rbind (Re.compile_epath epath) (fun pat => Ok (List.filter pat eps))
    end.
Proof.
  induction eps as [|ep eps IH]; [done|].
  cbn [filter_epaths]. rewrite IH.
  destruct (Re.compile_epath epath) as [pat|e]; [|done].
  destruct eps; cbn; done.
Qed.

Lemma filter_epaths_compiled (epath : string) (pat : list Re.atom) (eps : list string) :
  Re.parse_epath epath = Some pat →
  filter_epaths epath eps = Ok (List.filter (Re.matches pat) eps).
Proof.
  intros Hc. rewrite filter_epaths_unfold, (compile_epath_parsed _ _ Hc).
  by destruct eps.
Qed.

Lemma filter_epaths_not_ValueError (epath : string) (eps : list string) :
  filter_epaths epath eps ≠ Raise ValueError.
Proof.
  rewrite filter_epaths_unfold. destruct eps; [done|].
  destruct (Re.compile_epath epath) as [pat|e] eqn:E; [done|].
  apply compile_epath_raise in E as ->. done.
Qed.

(** On an initialized store a wildcard pattern without further syntax
    expands to the stored paths it matches, in stored order. *)
Lemma expand_epath_wildcard (db : Database) (epath : string) (pat : list Re.atom) :
  initialized db = true →
  has_wildcard epath = true →
  Re.parse_epath epath = Some pat →
  expand_epath db epath = Ok (List.filter (Re.matches pat) (epaths db)).
Proof.
  intros Hi Hw Hc. unfold expand_epath, get_epaths. rewrite Hi, Hw.
  cbn [negb rbind]. by apply filter_epaths_compiled.
Qed.

(** C7, as the code has it.  On an initialized store [expand_epath] raises
    ValueError exactly when the pattern has no wildcard and is not a stored
    path; a stored path without wildcard expands to itself; a pattern with
    a wildcard is never refused for matching nothing: over a store with
    paths the pattern is compiled, and the result is the error of the
    compilation, if it fails, and else the list of the stored paths the
    pattern matches at their start, in stored order, be there none; a
    pattern without further regular expression syntax always compiles, and
    is matched as [Re.matches] says. *)
Theorem expand_epath_ValueError_iff (db : Database) (epath : string) :
  initialized db = true →
  (expand_epath db epath = Raise ValueError ↔
     has_wildcard epath = false ∧ epath ∉ epaths db) ∧
  (has_wildcard epath = false → epath ∈ epaths db →
     expand_epath db epath = Ok [epath]) ∧
  (has_wildcard epath = true →
     expand_epath db epath =
       match epaths db with
       | [] => Ok []
       | _ :: _ =>
           match Re.compile_epath epath with
           | Ok pat => Ok (List.filter pat (epaths db))
           | Raise _ => Raise ReError
           end
       end) ∧
  (∀ pat, has_wildcard epath = true → Re.parse_epath epath = Some pat →
     expand_epath db epath = Ok (List.filter (Re.matches pat) (epaths db))).
Proof.
  intros Hi. split; [|split; [|split]]; [| | |by intros pat; apply expand_epath_wildcard];
    unfold expand_epath, get_epaths; rewrite Hi; cbn [negb rbind];
    destruct (has_wildcard epath) eqn:Hw.
  - split; [|by intros [? _]].
    intros H0. by apply filter_epaths_not_ValueError in H0.
  - case_bool_decide; split; try done.
    by intros [_ ?].
  - done.
  - intros _ Hin. by rewrite bool_decide_eq_true_2.
  - intros _. rewrite filter_epaths_unfold.
    destruct (epaths db); [done|].
    destruct (Re.compile_epath epath) as [pat|e] eqn:E; [done|].
    by apply compile_epath_raise in E as ->.
  - done.
Qed.

(** ** expand_epath and glob patterns *)

Lemma append_star_star (q : string) : (q +:+ "*") +:+ "*" = q +:+ "**".
Proof.
  induction q as [|c q IH]; [done|].
  change (String c ((q +:+ "*") +:+ "*") = String c (q +:+ "**")). by f_equal.
Qed.

Lemma has_wildcard_trailing_star (q : string) : has_wildcard (q +:+ "*") = true.
Proof.
  unfold has_wildcard. replace (str_contains "*" (q +:+ "*")) with true; [done|].
  induction q as [|c q IH]; [done|].
  change (String c q +:+ "*") with (String c (q +:+ "*")).
  cbn [str_contains]. by destruct (Ascii.eqb "*" c).
Qed.

(** On an initialized store whose paths hold no newline, a wildcard pattern
    of the fragment, without a dot, expands to the stored paths that the
    glob pattern followed by one more ['*'] accepts. *)
Lemma expand_epath_glob_open (db : Database) (epath : string) (pat : list Re.atom) :
  initialized db = true →
  has_wildcard epath = true →
  Re.parse_epath epath = Some pat →
  str_contains "." epath = false →
  Forall (fun k => str_contains Re.newline k = false) (epaths db) →
  expand_epath db epath
    = Ok (List.filter (Glob.matches (epath +:+ "*")) (epaths db)).
Proof.
  intros Hi Hw Hc Hd Hn.
  rewrite (expand_epath_wildcard db epath pat Hi Hw Hc). f_equal.
  apply List.filter_ext_in. intros k Hk.
  apply matches_glob_open; [done | done |].
  rewrite Forall_forall in Hn. apply Hn. by apply list_elem_of_In.
Qed.

(** For a pattern that ends in ['*'], as [data*] and [metadata*] of the
    writers, this is glob matching of the pattern itself. *)
Lemma expand_epath_trailing_star (db : Database) (q : string) (pat : list Re.atom) :
  initialized db = true →
  Re.parse_epath (q +:+ "*") = Some pat →
  str_contains "." q = false →
  Forall (fun k => str_contains Re.newline k = false) (epaths db) →
  expand_epath db (q +:+ "*")
    = Ok (List.filter (Glob.matches (q +:+ "*")) (epaths db)).
Proof.
  intros Hi Hc Hd Hn.
  rewrite (expand_epath_glob_open db _ pat Hi (has_wildcard_trailing_star q) Hc).
  - f_equal. apply List.filter_ext. intros k.
    rewrite append_star_star. apply glob_star_star.
  - clear Hc. induction q as [|c q IH]; [done|].
    change (String c q +:+ "*") with (String c (q +:+ "*")).
    cbn [str_contains] in *.
    destruct (Ascii.eqb "." c); [done | by apply IH].
  - done.
Qed.

(** [expand_epath("data/*")] returns, in stored order, the stored paths
    whose primary type is [data], compared case-insensitively. *)
Lemma expand_epath_data_star (db : Database) :
  initialized db = true →
  Forall (fun k => str_contains Re.newline k = false) (epaths db) →
  expand_epath db "data/*"
    = Ok (List.filter
            (fun k => Re.ci_str_eqb "data" (primary_type k) && str_contains "/" k)
            (epaths db)).
Proof.
  intros Hi Hn.
  etrans;
    [apply (expand_epath_trailing_star db "data/"
              [Re.Lit "d"; Re.Lit "a"; Re.Lit "t"; Re.Lit "a"; Re.Lit "/";
               Re.LazyDots]); done|].
  f_equal. apply List.filter_ext. intros k.
  apply (glob_segment "data"); [done | done |].
  intros c. destruct c as [[] [] [] [] [] [] [] []]; vm_compute; congruence.
Qed.

(* ===================================================================== *)
(** * Properties of initialize *)
(* ===================================================================== *)

Import Phases.

(** [initialize] in three phases; a failure to read the version, or an
    exception other than KeyError while the pages are read, leaves the
    store not initialized. *)
Lemma initialize_phases (w : site) (s : Database * pystate) :
  initialized (fst s) = false →
  initialize w s =
    match sphinx_version w with
    | Raise e => (Raise e, s)
    | Ok parsed_version =>
        match pages w (start parsed_version (fst s), snd s) with
        | (Ok _, s1) => (Ok tt, (finish (fst s1), snd s1))
        | (Raise e, s1) => (Raise e, s1)
        end
    end.
Proof.
  intros Hi. unfold initialize. rewrite Hi. cbn [negb].
  fold (pages w). generalize (pages w). intros m.
  unfold bind, lift, modify_db.
  destruct (sphinx_version w) as [pv|e]; [|done].
  cbn [fst snd]. fold (start pv (fst s)).
  destruct (m (start pv (fst s), snd s)) as [[[]|e] s1]; done.
Qed.

(** On an initialized store [initialize] does nothing. *)
Lemma initialize_noop (w : site) (s : Database * pystate) :
  initialized (fst s) = true → initialize w s = (Ok tt, s).
Proof. intros Hi. unfold initialize. by rewrite Hi. Qed.

(** A call that returns leaves the store initialized. *)
Lemma initialize_completes_initialized (w : site) (s s1 : Database * pystate) :
  initialize w s = (Ok tt, s1) → initialized (fst s1) = true.
Proof.
  destruct (initialized (fst s)) eqn:Hi.
  - rewrite initialize_noop by done. by intros [= <-].
  - rewrite initialize_phases by done.
    destruct (sphinx_version w); [|done].
    destruct (pages w _) as [[[]|e] s2]; [|done].
    by intros [= <-].
Qed.

(** C6.  Once a call of [initialize] has returned, a second call on the
    same store, whatever the site then serves, returns with the store and
    the interpreter state unchanged; the store is in the initialized state
    and [get_data(None)] gives after the second call what it gave after the
    first. *)
Theorem initialize_idempotent (w1 w2 : site) (s s1 : Database * pystate) :
  initialize w1 s = (Ok tt, s1) →
  initialized (fst s1) = true ∧
  initialize w2 s1 = (Ok tt, s1) ∧
  get_data (fst (snd (initialize w2 s1))) None = get_data (fst s1) None.
Proof.
  intros H. apply initialize_completes_initialized in H.
  split; [done|]. rewrite initialize_noop by done. done.
Qed.

(* ===================================================================== *)
(** * Properties of the writers *)
(* ===================================================================== *)

Lemma check_database_ok (database : option Database) (db : Database) :
  check_database database = Ok db → database = Some db ∧ initialized db = true.
Proof.
  unfold check_database. destruct database as [d|]; [|done].
  destruct (initialized d) eqn:Hi; cbn; [|done].
  intros [= <-]. done.
Qed.

(** C10.  Whatever the writer class, the output directory and the file
    system, the constructor raises (a ValueError) when the store handle is
    [None] or a store that is not initialized; when it returns a writer,
    the handle was a store, initialized, and the writer holds it. *)
Theorem writer_needs_initialized_store
    (create_path : string → result string) (read_templates : result unit)
    (cls : writer_class) (handle : option Database) (dir : string) :
  ((handle = None ∨ ∃ db, handle = Some db ∧ initialized db = false) →
     Writers.construct create_path read_templates cls handle dir
       = Raise ValueError) ∧
  (∀ self, Writers.construct create_path read_templates cls handle dir = Ok self →
     handle = Some (database self) ∧ initialized (database self) = true).
Proof.
  unfold Writers.construct, Writers.Writer_init. split.
  - intros [-> | (db & -> & Hi)]; cbn; [done|]. by rewrite Hi.
  - intros self.
    destruct (check_database handle) as [d|e] eqn:Hc; [|done].
    apply check_database_ok in Hc as [-> Hi]. cbn [rbind].
    destruct (create_path dir) as [p|e]; [|done]. cbn [rbind].
    destruct cls; cbn [database].
    1-3: by intros [= <-].
    destruct (get_data d _); [|done]. cbn [rbind].
    destruct read_templates; [|done]. by intros [= <-].
Qed.

(** ** The running total *)

Lemma keeps_on_py_store {A} (P : Database → Prop) (m : M pystate A) :
  keeps (fun s => P (fst s)) (on_py m).
Proof.
  intros s r s' HP. unfold on_py. destruct (m (snd s)) as [r1 st1].
  intros [= _ <-]. done.
Qed.

Lemma keeps_get_db (P : Database * pystate → Prop) : keeps P get_db.
Proof. intros s r s' HP [= _ <-]. done. Qed.




(** The entries kept for a key that is already stored are those of the page
    that the stored list does not contain. *)
Lemma unique_entries_filter h cur_entries _entries unique :
  unique_entries h cur_entries _entries = Ok unique →
  unique = List.filter
             (fun _e => match contains h _e cur_entries with
                        | Ok false => true
                        | _ => false
                        end) _entries.
Proof.
  revert unique. induction _entries as [|_e rest IH]; intros unique; cbn.
  - by intros [= <-].
  - destruct (contains h _e cur_entries) as [b|]; [|done]. cbn [rbind].
    destruct (unique_entries h cur_entries rest) as [u|]; [|done]. cbn [rbind].
    intros [= <-]. rewrite <- (IH u eq_refl). by destruct b.
Qed.







End StoreFacts.

(* ===================================================================== *)
(** * Properties of get_defs *)
(* ===================================================================== *)

Section ExtractorFacts.
Import DataExtractor.

Lemma dict_get_add_entry (c : option string) (e : nat)
    (entries : list (option string * list nat)) :
  dict_get c (add_entry c e entries)
    = Some (default [] (dict_get c entries) ++ [e]).
Proof.
  unfold add_entry. destruct (dict_get c entries); by rewrite dict_get_set.
Qed.

Lemma items_for_id dl is_last dt desc dt_link :
  dict_get "id" (items_for dl is_last dt desc dt_link) = Some (dt_id dt).
Proof. reflexivity. Qed.

(** One term whose id is not the string ["id"]: a new instance is made from
    the term's items and appended under the class of the list. *)
Lemma do_dt_fresh url dl is_last dt lv st dt_link :
  cache_keys_id st →
  dt_id dt ≠ Some "id" →
  link_for url dt (last_link lv) = Ok dt_link →
  do_dt url dl is_last dt lv st =
    (Ok {| entries := add_entry (dl_class dl) (length (heap st)) (entries lv);
           last_link := dt_link;
           desc := description_for dl is_last (desc lv) |},
     {| heap := heap st ++
                [Some {| primary_type := "id";
                         items := items_for dl is_last dt (desc lv) dt_link |}];
        entry_classcache := <["id" := length (heap st)]> (entry_classcache st) |}).
Proof.
  intros Hc Hid Hl. unfold do_dt, bind, lift, ret. rewrite Hl.
  rewrite (Entry_call_fresh st _ (dt_id dt)) by done.
  f_equal. f_equal. f_equal.
  unfold link_for in Hl. destruct (dt_a dt); congruence.
Qed.

(** The version markers of a description. *)
Lemma since_of_marker :
  since_of "New in version 1.4. Some details." = "1.4" ∧
  since_of "Some details." = "0.1" ∧
  deprecated_of "Deprecated since version 1.0: use x." = "1.0" ∧
  deprecated_of "New in version 1.4. Some details." = "".
Proof. vm_compute. done. Qed.

(** The extraction keeps the cache keyed by ["id"] alone: the premise of
    [do_dt_fresh] holds in every state reached from the empty one. *)
Lemma do_dt_cache_keys url dl is_last dt lv :
  keeps cache_keys_id (do_dt url dl is_last dt lv).
Proof.
  unfold do_dt. apply keeps_bind; [apply keeps_lift | intros dt_link].
  apply keeps_bind; [|intros entry; apply keeps_ret].
  intros st r st' Hc H. by eapply Entry_call_cache_keys.
Qed.

Lemma do_dts_cache_keys url dl dts :
  ∀ lv, keeps cache_keys_id (do_dts url dl dts lv).
Proof.
  induction dts as [|dt dts IH]; intros lv; cbn [do_dts].
  - apply keeps_ret.
  - apply keeps_bind; [apply do_dt_cache_keys | apply IH].
Qed.

Lemma get_defs_cache_keys url dls : keeps cache_keys_id (get_defs url dls).
Proof.
  unfold get_defs. apply keeps_bind; [|intros lv; apply keeps_ret].
  generalize {| entries := []; last_link := ""; desc := "" |}.
  induction dls as [|dl dls IH]; intros lv; cbn [do_dls].
  - apply keeps_ret.
  - apply keeps_bind; [apply do_dts_cache_keys | apply IH].
Qed.

(** What the code does on a list of two terms sharing one description,
    the first with a permalink and the second without, neither with the
    string ["id"] for id: the extraction of the list adds two entries under
    its class; the second has the link of the first, and the description of
    the first is ["see "] followed by the text of the second term's first
    [tt] child (["None"] when it has none).  Only when that first child is
    the term's one [tt], a [descname], is this the name of the second
    entry. *)
Lemma shared_description_terms
    (url : string) (dl : dl_elem) (dt1 dt2 : dt_elem) (href : string)
    (lv : locals) (st : pystate) :
  dl_dts dl = [dt1; dt2] →
  dt_a dt1 = Some (Some href) →
  dt_a dt2 = None →
  cache_keys_id st →
  dt_id dt1 ≠ Some "id" →
  dt_id dt2 ≠ Some "id" →
  ∃ lv' st',
    do_dl url dl lv st = (Ok lv', st') ∧
    let e1 := length (heap st) in
    let e2 := S (length (heap st)) in
    dict_get (dl_class dl) (entries lv')
      = Some (default [] (dict_get (dl_class dl) (entries lv)) ++ [e1; e2]) ∧
    Entry.getitem (heap st') e1 "link" = Ok (Some (url +:+ href)) ∧
    Entry.getitem (heap st') e2 "link" = Ok (Some (url +:+ href)) ∧
    Entry.getitem (heap st') e1 "description"
      = Ok (Some ("see " +:+ py_str (findtext_tt dt2))) ∧
    (∀ t, dt_tts dt2 = [t] → tt_class t = Some "descname" →
       Entry.getitem (heap st') e2 "name" = Ok (Some (text_of t)) ∧
       Entry.getitem (heap st') e1 "description"
         = Ok (Some ("see " +:+ text_of t))).
Proof.
  intros Hdts Ha1 Ha2 Hc Hid1 Hid2.
  unfold do_dl. rewrite Hdts. cbn [length Nat.ltb Nat.leb do_dts last from_option].
  unfold bind at 1.
  erewrite (do_dt_fresh url dl _ dt1) by
    (try done; unfold link_for; rewrite Ha1; reflexivity).
  unfold bind at 1.
  erewrite (do_dt_fresh url dl _ dt2); cycle 1.
  { by apply cache_keys_id_insert. }
  { done. }
  { unfold link_for. rewrite Ha2. reflexivity. }
  eexists _, _. split; [reflexivity|].
  cbn [heap entries last_link desc].
  rewrite length_app. cbn [length].
  replace (length (heap st) + 1) with (S (length (heap st))) by lia.
  assert (H1 : ∀ a b : option entry_attrs,
             ((heap st ++ [a]) ++ [b]) !! length (heap st) = Some a).
  { intros a b. rewrite lookup_app_l by (rewrite length_app; cbn; lia).
    rewrite lookup_app_r by lia. by rewrite Nat.sub_diag. }
  assert (H2 : ∀ a b : option entry_attrs,
             ((heap st ++ [a]) ++ [b]) !! S (length (heap st)) = Some b).
  { intros a b. rewrite lookup_app_r by (rewrite length_app; cbn; lia).
    rewrite length_app. cbn [length].
    replace (S (length (heap st)) - (length (heap st) + 1)) with 0 by lia. done. }
  unfold Entry.getitem. rewrite !H1, !H2. cbn [items].
  split.
  { rewrite !dict_get_add_entry. unfold default at 1. cbn [from_option id].
    by rewrite <- app_assoc. }
  do 3 (split; [reflexivity|]).
  intros t Ht Hcl. split.
  - unfold items_for. rewrite Ht. cbn [scan_tts].
    rewrite bool_decide_eq_true_2 by done. reflexivity.
  - unfold findtext_tt. rewrite Ht. reflexivity.
Qed.

Lemma shared_description_terms_witness :
  ∃ lv' st',
    do_dl Sample.url Sample.shared_list
      {| entries := []; last_link := ""; desc := "" |} empty_state = (Ok lv', st') ∧
    Entry.getitem (heap st') 1 "link" = Ok (Some (Sample.url +:+ "#role-a")).
Proof.
  destruct (shared_description_terms Sample.url Sample.shared_list
              Sample.term1 Sample.term2 "#role-a"
              {| entries := []; last_link := ""; desc := "" |} empty_state)
    as (lv' & st' & H & _ & _ & H2 & _).
  - reflexivity.
  - reflexivity.
  - reflexivity.
  - apply cache_keys_id_empty.
  - discriminate.
  - discriminate.
  - exists lv', st'. split; [exact H | exact H2].
Defined.

(** C9.  The hint is not built from the name of the last term: the second
    term of the sample list shows a qualifying prefix [mod.] before its
    name [b]; the second entry has the name [b] and the link of the first,
    but the description of the first reads [see mod.], not [see b].  The
    code takes [last_dt.findtext('./tt')], the first [tt] child whatever
    its class, where its comment announces the name of the last term and
    the loop over [tts] takes the name from the [descname] child. *)
Lemma shared_description_names_prefix :
  ∃ st',
    get_defs Sample.url [Sample.shared_list] empty_state
      = (Ok [(Some "role", [0; 1])], st') ∧
    Entry.getitem (heap st') 1 "name" = Ok (Some "b") ∧
    Entry.getitem (heap st') 1 "link" = Entry.getitem (heap st') 0 "link" ∧
    Entry.getitem (heap st') 0 "description" = Ok (Some "see mod.") ∧
    Entry.getitem (heap st') 0 "description" ≠ Ok (Some "see b").
Proof.
  exists (snd (get_defs Sample.url [Sample.shared_list] empty_state)).
  vm_compute. done.
Qed.

End ExtractorFacts.

(* ===================================================================== *)
(** * The extraction of a whole page *)
(* ===================================================================== *)

Section PageFacts.
Import DataExtractor Pure.

Lemma link_for_plain url dt last :
  dt_a dt ≠ Some None → link_for url dt last = Ok (link_of url dt last).
Proof.
  unfold link_for, link_of. by destruct (dt_a dt) as [[href|]|].
Qed.

Lemma do_dts_plain url dl dts :
  ∀ lv st,
    cache_keys_id st →
    Forall plain_term dts →
    ∃ st',
      do_dts url dl dts lv st
        = (Ok (dts_locals url dl dts lv (length (heap st))), st') ∧
      heap st' = heap st
                 ++ map Some (dts_cells url dl dts (last_link lv) (desc lv)) ∧
      cache_keys_id st'.
Proof.
  induction dts as [|dt rest IH]; intros lv st Hc Hp.
  - exists st. cbn. by rewrite app_nil_r.
  - apply Forall_cons in Hp as [[Hid Ha] Hp].
    cbn [do_dts dts_locals dts_cells]. unfold bind at 1.
    rewrite (do_dt_fresh url dl _ dt lv st (link_of url dt (last_link lv)))
      by (done || by apply link_for_plain).
    match goal with
    | |- ∃ _, do_dts _ _ _ ?lv1 ?st1 = _ ∧ _ =>
        destruct (IH lv1 st1) as (st' & Hrun & Hheap & Hc');
          [by apply cache_keys_id_insert | done |]
    end.
    exists st'. cbn [heap last_link desc] in *.
    rewrite length_app, Nat.add_1_r in Hrun. cbn [length] in Hrun.
    split; [exact Hrun|]. split; [|done].
    rewrite Hheap, <- app_assoc. done.
Qed.

Lemma do_dl_plain url dl lv st :
  cache_keys_id st →
  Forall plain_term (dl_dts dl) →
  ∃ st',
    do_dl url dl lv st = (Ok (dl_locals url dl lv (length (heap st))), st') ∧
    heap st' = heap st ++ map Some (dl_cells url dl lv) ∧
    cache_keys_id st'.
Proof.
  intros Hc Hp. unfold do_dl, dl_locals, dl_cells, dl_desc.
  destruct (1 <? length (dl_dts dl))%nat.
  - by apply do_dts_plain.
  - destruct lv as [es ll d]. by apply do_dts_plain.
Qed.

Lemma dts_cells_length url dl dts :
  ∀ last desc, length (dts_cells url dl dts last desc) = length dts.
Proof. induction dts as [|dt rest IH]; intros; cbn; [done | by rewrite IH]. Qed.

Lemma do_dls_plain url dls :
  ∀ lv st,
    cache_keys_id st →
    Forall plain_term (all_dts dls) →
    ∃ st',
      do_dls url dls lv st
        = (Ok (dls_locals url dls lv (length (heap st))), st') ∧
      heap st' = heap st ++ map Some (dls_cells url dls lv (length (heap st))) ∧
      cache_keys_id st'.
Proof.
  induction dls as [|dl rest IH]; intros lv st Hc Hp.
  - exists st. cbn. by rewrite app_nil_r.
  - unfold all_dts in Hp. cbn [map concat] in Hp.
    apply Forall_app in Hp as [Hp1 Hp2].
    destruct (do_dl_plain url dl lv st Hc Hp1) as (st1 & Hrun1 & Hheap1 & Hc1).
    destruct (IH (dl_locals url dl lv (length (heap st))) st1 Hc1 Hp2)
      as (st' & Hrun & Hheap & Hc').
    exists st'. cbn [do_dls dls_locals dls_cells]. unfold bind at 1.
    rewrite Hrun1, Hrun.
    assert (Hlen : length (heap st1) = length (heap st) + length (dl_dts dl)).
    { rewrite Hheap1, length_app, length_map. unfold dl_cells.
      by rewrite dts_cells_length. }
    rewrite Hlen in *. split; [done|]. split; [|done].
    rewrite Hheap, Hheap1, map_app, app_assoc. done.
Qed.

(** ** What the instances hold *)

Lemma dts_cells_ids url dl dts :
  ∀ last desc,
    map (item "id") (dts_cells url dl dts last desc)
      = map (fun dt => Some (dt_id dt)) dts.
Proof.
  induction dts as [|dt rest IH]; intros; cbn [dts_cells map]; [done|].
  by rewrite IH.
Qed.

Lemma dls_cells_ids url dls :
  ∀ lv n,
    map (item "id") (dls_cells url dls lv n)
      = map (fun dt => Some (dt_id dt)) (all_dts dls).
Proof.
  induction dls as [|dl rest IH]; intros; [done|].
  cbn [dls_cells]. unfold all_dts. cbn [map concat].
  rewrite !map_app, IH. unfold dl_cells. by rewrite dts_cells_ids.
Qed.

Lemma dts_cells_links url dl dts :
  ∀ last desc,
    map (item "link") (dts_cells url dl dts last desc)
      = map (fun l => Some (Some l)) (inherited_links url last dts).
Proof.
  induction dts as [|dt rest IH]; intros; cbn [dts_cells inherited_links map]; [done|].
  by rewrite IH.
Qed.

Lemma dts_locals_last_link url dl dts :
  ∀ lv n,
    last_link (dts_locals url dl dts lv n)
      = foldl (fun l dt => link_of url dt l) (last_link lv) dts.
Proof.
  induction dts as [|dt rest IH]; intros; cbn [dts_locals foldl]; [done|].
  by rewrite IH.
Qed.

Lemma inherited_links_app url dts1 :
  ∀ last dts2,
    inherited_links url last (dts1 ++ dts2)
      = inherited_links url last dts1
        ++ inherited_links url
             (foldl (fun l dt => link_of url dt l) last dts1) dts2.
Proof.
  induction dts1 as [|dt rest IH]; intros; cbn; [done|]. by rewrite IH.
Qed.

Lemma dls_cells_links url dls :
  ∀ lv n,
    map (item "link") (dls_cells url dls lv n)
      = map (fun l => Some (Some l))
          (inherited_links url (last_link lv) (all_dts dls)).
Proof.
  induction dls as [|dl rest IH]; intros; [done|].
  cbn [dls_cells]. unfold all_dts. cbn [map concat].
  rewrite inherited_links_app, !map_app, IH. unfold dl_cells, dl_locals.
  by rewrite dts_cells_links, dts_locals_last_link.
Qed.

(** The number of entries filed under all classes. *)
Lemma total_set_new {K A} `{EqDecision K} (k : K) (l : list A)
    (d : list (K * list A)) :
  dict_get k d = None →
  length (concat (map snd (dict_set k l d)))
    = length (concat (map snd d)) + length l.
Proof.
  induction d as [|[k' l'] d IH]; cbn [dict_get dict_set].
  - intros _. cbn. rewrite length_app. cbn. lia.
  - destruct (decide (k = k')) as [->|Hne]; [done|].
    intros Hg. cbn. rewrite !length_app, (IH Hg). lia.
Qed.

Lemma total_set_old {K A} `{EqDecision K} (k : K) (l0 l : list A)
    (d : list (K * list A)) :
  dict_get k d = Some l0 →
  length (concat (map snd (dict_set k l d))) + length l0
    = length (concat (map snd d)) + length l.
Proof.
  induction d as [|[k' l'] d IH]; cbn [dict_get dict_set]; [done|].
  destruct (decide (k = k')) as [->|Hne].
  - intros [= ->]. cbn. rewrite !length_app. lia.
  - intros Hg. cbn. rewrite !length_app. specialize (IH Hg). lia.
Qed.

Lemma add_entry_total (c : option string) (r : nat)
    (es : list (option string * list nat)) :
  length (concat (map snd (add_entry c r es)))
    = S (length (concat (map snd es))).
Proof.
  unfold add_entry. destruct (dict_get c es) as [lst|] eqn:Hg.
  - pose proof (total_set_old c lst (lst ++ [r]) es Hg) as H.
    rewrite length_app in H. cbn [length] in H. lia.
  - rewrite (total_set_new c [r] es Hg). cbn [length]. lia.
Qed.

Lemma dts_locals_total url dl dts :
  ∀ lv n,
    length (concat (map snd (entries (dts_locals url dl dts lv n))))
      = length (concat (map snd (entries lv))) + length dts.
Proof.
  induction dts as [|dt rest IH]; intros; cbn [dts_locals length]; [lia|].
  rewrite IH. cbn [entries]. rewrite add_entry_total. lia.
Qed.

Lemma dls_locals_total url dls :
  ∀ lv n,
    length (concat (map snd (entries (dls_locals url dls lv n))))
      = length (concat (map snd (entries lv))) + length (all_dts dls).
Proof.
  induction dls as [|dl rest IH]; intros; cbn [dls_locals].
  - cbn. lia.
  - rewrite IH. unfold dl_locals. rewrite dts_locals_total. cbn [entries].
    unfold all_dts. cbn [map concat]. rewrite length_app. lia.
Qed.

Lemma dts_cells_descriptions url dl pre x :
  ∀ last desc,
    map (item "description") (dts_cells url dl (pre ++ [x]) last desc)
      = replicate (length pre) (Some (Some desc))
        ++ [Some (Some (description_for dl true desc))].
Proof.
  induction pre as [|p pre IH]; intros; [done|].
  cbn [app dts_cells map length replicate].
  rewrite bool_decide_eq_false_2 by (by destruct pre).
  rewrite IH. done.
Qed.

(** X1.  On a page where no term has the string ["id"] for id and every
    anchor has its [href], [get_defs] returns, makes one new instance per
    term, in document order and with the id of the term, and files as many
    entries under the classes as the page has terms. *)
Theorem get_defs_one_entry_per_term
    (url : string) (dls : list dl_elem) (st : pystate) :
  cache_keys_id st →
  Forall plain_term (all_dts dls) →
  ∃ defs st' cells,
    get_defs url dls st = (Ok defs, st') ∧
    heap st' = heap st ++ map Some cells ∧
    map (item "id") cells = map (fun dt => Some (dt_id dt)) (all_dts dls) ∧
    length (concat (map snd defs)) = length (all_dts dls).
Proof.
  intros Hc Hp. unfold get_defs, bind, ret.
  destruct (do_dls_plain url dls {| entries := []; last_link := ""; desc := "" |}
              st Hc Hp) as (st' & Hrun & Hheap & _).
  rewrite Hrun. eexists _, st', _. split; [done|]. split; [exact Hheap|].
  split; [apply dls_cells_ids|]. by rewrite dls_locals_total.
Qed.

(** X2.  On such a page the link of every entry is the site URL followed
    by the [href] of the term's own anchor, or else the link of the nearest
    earlier term of the page that has an anchor, in whatever list, and the
    empty string when there is none. *)
Theorem get_defs_links_inherited
    (url : string) (dls : list dl_elem) (st : pystate) :
  cache_keys_id st →
  Forall plain_term (all_dts dls) →
  ∃ defs st' cells,
    get_defs url dls st = (Ok defs, st') ∧
    heap st' = heap st ++ map Some cells ∧
    map (item "link") cells
      = map (fun l => Some (Some l)) (inherited_links url "" (all_dts dls)).
Proof.
  intros Hc Hp. unfold get_defs, bind, ret.
  destruct (do_dls_plain url dls {| entries := []; last_link := ""; desc := "" |}
              st Hc Hp) as (st' & Hrun & Hheap & _).
  rewrite Hrun. eexists _, st', _. split; [done|]. split; [exact Hheap|].
  apply (dls_cells_links url dls {| entries := []; last_link := ""; desc := "" |}).
Qed.

Lemma get_defs_one_entry_per_term_witness :
  ∃ defs st',
    get_defs Sample.url [Sample.shared_list; Sample.class_list] empty_state
      = (Ok defs, st') ∧
    length (concat (map snd defs)) = 3.
Proof.
  destruct (get_defs_one_entry_per_term Sample.url
              [Sample.shared_list; Sample.class_list] empty_state)
    as (defs & st' & cells & H1 & _ & _ & H4).
  - apply cache_keys_id_empty.
  - repeat (constructor; [split; discriminate|]). constructor.
  - exists defs, st'. split; [exact H1 | exact H4].
Defined.

Lemma get_defs_links_inherited_witness :
  ∃ defs st' cells,
    get_defs Sample.url [Sample.shared_list; Sample.class_list] empty_state
      = (Ok defs, st') ∧
    heap st' = map Some cells ∧
    map (item "link") cells
      = [Some (Some "http://sphinx.example#role-a");
         Some (Some "http://sphinx.example#role-a");
         Some (Some "http://sphinx.example#C")].
Proof.
  apply (get_defs_links_inherited Sample.url
           [Sample.shared_list; Sample.class_list] empty_state).
  - apply cache_keys_id_empty.
  - repeat (constructor; [split; discriminate|]). constructor.
Defined.

(** X3.  In a list of plain terms all the terms but the last get the
    description ["see "] followed by the text of the first [tt] child of
    the last term (["None"] when it has none); the last term gets the
    texts of the list's [dd] joined, the empty string when the list has no
    [dd].  A list with a single term has no ["see"] description. *)
Theorem do_dl_descriptions
    (url : string) (dl : dl_elem) (pre : list dt_elem) (last_dt : dt_elem)
    (lv : locals) (st : pystate) :
  dl_dts dl = pre ++ [last_dt] →
  cache_keys_id st →
  Forall plain_term (dl_dts dl) →
  ∃ lv' st' cells,
    do_dl url dl lv st = (Ok lv', st') ∧
    heap st' = heap st ++ map Some cells ∧
    map (item "description") cells
      = replicate (length pre)
          (Some (Some ("see " +:+ py_str (findtext_tt last_dt))))
        ++ [Some (Some (match dl_dd dl with
                        | Some texts => String.concat "" texts
                        | None => ""
                        end))].
Proof.
  intros Hdts Hc Hp.
  destruct (do_dl_plain url dl lv st Hc Hp) as (st' & Hrun & Hheap & _).
  eexists _, st', _. split; [exact Hrun|]. split; [exact Hheap|].
  unfold dl_cells. rewrite Hdts, dts_cells_descriptions. f_equal.
  destruct pre as [|p pre]; [done|].
  unfold dl_desc. rewrite Hdts, last_snoc.
  replace (1 <? length ((p :: pre) ++ [last_dt]))%nat with true; [done|].
  symmetry. apply Nat.ltb_lt. rewrite length_app. cbn. lia.
Qed.

Lemma do_dl_descriptions_witness :
  ∃ lv' st' cells,
    do_dl Sample.url Sample.shared_list
      {| entries := []; last_link := ""; desc := "" |} empty_state = (Ok lv', st') ∧
    heap st' = map Some cells ∧
    map (item "description") cells
      = [Some (Some "see mod.");
         Some (Some "Shared text. New in version 1.4. Some details.")].
Proof.
  apply (do_dl_descriptions Sample.url Sample.shared_list [Sample.term1]
           Sample.term2 {| entries := []; last_link := ""; desc := "" |}
           empty_state).
  - reflexivity.
  - apply cache_keys_id_empty.
  - repeat (constructor; [split; discriminate|]). constructor.
Defined.

(** ** The version markers *)

Lemma span_digits_digits s :
  all_digits (fst (Re.span_digits s)) = true.
Proof.
  induction s as [|c s IH]; [done|]. cbn [Re.span_digits].
  destruct (Re.is_digit c) eqn:Hd; [|done].
  destruct (Re.span_digits s) as [d r]. cbn in *. by rewrite Hd.
Qed.

Lemma version_at_shape lit s v :
  Re.version_at lit s = Some v → version_shape v.
Proof.
  unfold Re.version_at. destruct (Re.ci_strip lit s) as [r|]; [|done].
  pose proof (span_digits_digits r) as Hmaj.
  destruct (Re.span_digits r) as [major rest]. cbn [fst] in Hmaj.
  destruct major as [|m0 major]; [done|].
  destruct rest as [|c r']; [done|].
  destruct (Ascii.eqb_spec c ".") as [->|Hne].
  - pose proof (span_digits_digits r') as Hmin.
    destruct (Re.span_digits r') as [minor rest']. cbn [fst] in Hmin.
    destruct minor as [|n0 minor]; [done|].
    intros [= <-]. by exists (String m0 major), (String n0 minor).
  - destruct c as [[] [] [] [] [] [] [] []]; done.
Qed.

Lemma search_version_shape lit s v :
  Re.search_version lit s = Some v → version_shape v.
Proof.
  induction s as [|c s IH]; cbn [Re.search_version].
  - destruct (Re.version_at lit "") eqn:E; [|done].
    intros [= <-]. by eapply version_at_shape.
  - destruct (Re.version_at lit (String c s)) eqn:E; [|exact IH].
    intros [= <-]. by eapply version_at_shape.
Qed.

Lemma search_version_absent lit s :
  ci_occurs lit s = false → Re.search_version lit s = None.
Proof.
  assert (Hat : ∀ t, Re.ci_strip lit t = None → Re.version_at lit t = None)
    by (intros t Ht; unfold Re.version_at; by rewrite Ht).
  induction s as [|c s IH]; cbn [ci_occurs Re.search_version].
  - destruct (Re.ci_strip lit "") eqn:E; [done|]. by rewrite (Hat _ E).
  - destruct (Re.ci_strip lit (String c s)) eqn:E; [done|].
    rewrite (Hat _ E). exact IH.
Qed.

(** X4.  Whatever the description (a text of characters below U+0100), the
    version an entry is said to be new in is of the form digits, dot,
    digits, and the version it is deprecated since is of that form or
    empty; a description in which the words of the marker do not occur,
    letters compared without case, gives the defaults ["0.1"] and the
    empty string. *)
Theorem versions_well_formed (desc : string) :
  version_shape (since_of desc) ∧
  (deprecated_of desc = "" ∨ version_shape (deprecated_of desc)) ∧
  (ci_occurs SINCE_LIT desc = false → since_of desc = "0.1") ∧
  (ci_occurs DEPRECATED_LIT desc = false → deprecated_of desc = "").
Proof.
  unfold since_of, deprecated_of. split; [|split; [|split]].
  - destruct (Re.search_version SINCE_LIT desc) as [v|] eqn:E.
    + by eapply search_version_shape.
    + by exists "0", "1".
  - destruct (Re.search_version DEPRECATED_LIT desc) as [v|] eqn:E.
    + right. by eapply search_version_shape.
    + by left.
  - intros H. by rewrite search_version_absent.
  - intros H. by rewrite search_version_absent.
Qed.

Lemma versions_well_formed_witness :
  since_of "Changed in version 1.0: new in this version." = "0.1" ∧
  deprecated_of "Changed in version 1.0: new in this version." = "".
Proof.
  destruct (versions_well_formed "Changed in version 1.0: new in this version.")
    as (_ & _ & H1 & H2).
  split; [apply H1 | apply H2]; vm_compute; reflexivity.
Defined.

End PageFacts.

(* ===================================================================== *)
(** * Entries: the id named "id", and membership by id *)
(* ===================================================================== *)

Section EntryFacts.

(** X5.  An entry whose id is the string ["id"] is never made: built after
    any other entry, the call returns that earlier instance, with its own
    id and items, and leaves the state as it was. *)
Theorem Entry_id_named_id_is_aliased
    (st : pystate) (its1 its2 : list (string * pyval)) (key1 : pyval) :
  cache_keys_id st →
  dict_get "id" its1 = Some key1 →
  key1 ≠ Some "id" →
  dict_get "id" its2 = Some (Some "id") →
  ∃ st1,
    Entry.call its1 "id" st = (Ok (length (heap st)), st1) ∧
    Entry.call its2 "id" st1 = (Ok (length (heap st)), st1) ∧
    Entry.getitem (heap st1) (length (heap st)) "id" = Ok key1.
Proof.
  intros Hc H1 Hk H2.
  exists {| heap := heap st ++ [Some {| primary_type := "id"; items := its1 |}];
            entry_classcache := <["id" := length (heap st)]> (entry_classcache st) |}.
  split; [by apply (Entry_call_fresh st its1 key1)|].
  assert (Hl : ∀ a : option entry_attrs,
             (heap st ++ [a]) !! length (heap st) = Some a).
  { intros a. rewrite lookup_app_r by lia. by rewrite Nat.sub_diag. }
  split.
  - unfold Entry.call, bind, Entry.new, Entry.init, Entry.has_items, ret.
    rewrite H2. cbn [Entry.cache_get entry_classcache heap].
    rewrite lookup_insert_eq. cbn [heap]. rewrite Hl. done.
  - unfold Entry.getitem. cbn [heap]. rewrite Hl. cbn [items]. by rewrite H1.
Qed.

Lemma Entry_id_named_id_is_aliased_witness :
  ∃ st1,
    Entry.call (DataExtractor.entry_items (Some "role-a") ":a:" "" "d" "0.1" "" "l1")
      "id" empty_state = (Ok 0, st1) ∧
    Entry.call (DataExtractor.entry_items (Some "id") "x" "" "e" "0.1" "" "l2")
      "id" st1 = (Ok 0, st1) ∧
    Entry.getitem (heap st1) 0 "id" = Ok (Some "role-a").
Proof.
  apply (Entry_id_named_id_is_aliased empty_state _ _ (Some "role-a")).
  - apply cache_keys_id_empty.
  - reflexivity.
  - discriminate.
  - reflexivity.
Defined.

Lemma id_entry_getitem h r :
  id_entry h r → ∃ v, Entry.getitem h r "id" = Ok v.
Proof.
  intros (its & v & Hh & Hg). exists v. unfold Entry.getitem.
  rewrite Hh. cbn [items]. by rewrite Hg.
Qed.

Lemma Entry_eq_by_id h a b :
  id_entry h a → id_entry h b →
  Entry.eq h a b
    = Ok (bool_decide (Entry.getitem h a "id" = Entry.getitem h b "id")).
Proof.
  intros (ia & va & Ha & Hga) (ib & vb & Hb & Hgb).
  unfold Entry.eq, Entry.getitem. rewrite Ha, Hb. cbn [primary_type items].
  rewrite Hga, Hgb. cbn [rbind]. f_equal.
  apply bool_decide_ext. split; congruence.
Qed.

Lemma contains_ids (h : list (option entry_attrs)) (e : nat) (rs : list nat) :
  id_entry h e →
  Forall (id_entry h) rs →
  SphinxDatabase.contains h e (map VEntry rs)
    = Ok (bool_decide (Entry.getitem h e "id"
                         ∈ map (fun r => Entry.getitem h r "id") rs)).
Proof.
  intros He Hrs. induction Hrs as [|x rs Hx Hrs IH]; cbn [map SphinxDatabase.contains].
  - rewrite bool_decide_eq_false_2; [done | apply not_elem_of_nil].
  - destruct (Nat.eqb_spec x e) as [->|Hne].
    + rewrite bool_decide_eq_true_2; [done | by left].
    + rewrite (Entry_eq_by_id h x e Hx He). cbn [rbind].
      destruct (decide (Entry.getitem h x "id" = Entry.getitem h e "id"))
        as [Heq|Hneq].
      * rewrite (bool_decide_eq_true_2 _ Heq).
        rewrite bool_decide_eq_true_2; [done|]. rewrite Heq. by left.
      * rewrite (bool_decide_eq_false_2 _ Hneq), IH. f_equal.
        apply bool_decide_ext. rewrite elem_of_cons.
        split; [by right | intros [?|?]; [congruence | done]].
Qed.

Lemma unique_entries_ids (h : list (option entry_attrs)) (stored page : list nat) :
  Forall (id_entry h) stored →
  Forall (id_entry h) page →
  SphinxDatabase.unique_entries h (map VEntry stored) page
    = Ok (filter (fun e => Entry.getitem h e "id"
                             ∉ map (fun r => Entry.getitem h r "id") stored)
            page).
Proof.
  intros Hs Hp. induction Hp as [|e page He Hp IH]; cbn [SphinxDatabase.unique_entries]; [done|].
  rewrite (contains_ids h e stored He Hs), IH. cbn [rbind].
  rewrite filter_cons. case_bool_decide; by case_decide.
Qed.

(** X6.  Among instances made by [get_defs], [e in entries] holds exactly
    when some element of the list has the id of [e]: the other items play
    no part. *)
Theorem contains_by_id
    (h : list (option entry_attrs)) (e : nat) (rs : list nat) :
  id_entry h e →
  Forall (id_entry h) rs →
  SphinxDatabase.contains h e (map VEntry rs)
    = Ok (bool_decide (Entry.getitem h e "id"
                         ∈ map (fun r => Entry.getitem h r "id") rs)).
Proof. apply contains_ids. Qed.

(** X7.  When the entries of a page are merged into a key that is already
    stored, those kept are the entries of the page, in their order, whose id
    is not the id of a stored entry; two entries of the page with one id,
    new to the store, are both kept. *)
Theorem unique_entries_by_id
    (h : list (option entry_attrs)) (stored page : list nat) :
  Forall (id_entry h) stored →
  Forall (id_entry h) page →
  SphinxDatabase.unique_entries h (map VEntry stored) page
    = Ok (filter (fun e => Entry.getitem h e "id"
                             ∉ map (fun r => Entry.getitem h r "id") stored)
            page).
Proof. apply unique_entries_ids. Qed.

Lemma contains_by_id_witness :
  SphinxDatabase.contains
    (heap (snd (snd (Sample.run Sample.site_overloads)))) 1 (map VEntry [0])
  = Ok true.
Proof.
  etrans; [apply contains_by_id | vm_compute; reflexivity].
  - eexists _, _. split; vm_compute; reflexivity.
  - constructor; [|constructor]. eexists _, _. split; vm_compute; reflexivity.
Defined.

Lemma unique_entries_by_id_witness :
  SphinxDatabase.unique_entries
    (heap (snd (snd (Sample.run Sample.site_small)))) (map VEntry [0]) [1; 1]
  = Ok [1; 1].
Proof.
  etrans; [apply unique_entries_by_id | vm_compute; reflexivity].
  - constructor; [|constructor]. eexists _, _. split; vm_compute; reflexivity.
  - repeat (constructor; [eexists _, _; split; vm_compute; reflexivity|]).
    constructor.
Defined.

End EntryFacts.

(* ===================================================================== *)
(** * The store as a dict *)
(* ===================================================================== *)

Section DictFacts.
Import SphinxDatabase.

Lemma dict_keys_set {V} (k : string) (v : V) (d : list (string * V)) :
  dict_keys (dict_set k v d)
    = if bool_decide (k ∈ dict_keys d) then dict_keys d else dict_keys d ++ [k].
Proof.
  induction d as [|[k' v'] d IH]; cbn [dict_set dict_keys map fst].
  - done.
  - destruct (decide (k = k')) as [->|Hne]; cbn [map fst].
    + rewrite bool_decide_eq_true_2 by (by left). done.
    + fold (dict_keys (dict_set k v d)). fold (dict_keys d). rewrite IH.
      destruct (decide (k ∈ dict_keys d)) as [Hin|Hnin].
      * rewrite !bool_decide_eq_true_2 by (done || by right). done.
      * rewrite !bool_decide_eq_false_2; [done | | done].
        rewrite elem_of_cons. intros [?|?]; done.
Qed.

Lemma dict_get_keys {V} (k : string) (d : list (string * V)) :
  k ∈ dict_keys d ↔ ∃ v, dict_get k d = Some v.
Proof.
  induction d as [|[k' v'] d IH]; cbn [dict_keys map fst dict_get].
  - split; [by intros ?%elem_of_nil | by intros [? ?]].
  - destruct (decide (k = k')) as [->|Hne].
    + split; [by eexists | by left].
    + rewrite elem_of_cons. fold (dict_keys d). rewrite IH.
      split; [intros [?|?]; done | by right].
Qed.

(** X8.  Reading a key after a write gives the value written when it is
    the key written, and what it gave before otherwise (a KeyError for a
    key that was never written). *)
Theorem getitem_setitem (db : Database) (k k' : string) (v : value) :
  getitem (setitem k v db) k'
    = if decide (k' = k) then Ok v else getitem db k'.
Proof.
  unfold getitem, setitem. cbn [contents]. case_decide as Hk.
  - subst. by rewrite dict_get_set.
  - by rewrite dict_get_set_ne.
Qed.

(** X9.  A write keeps the order of the keys: writing a key the store has
    leaves the list of keys as it is, and a new key goes to its end. *)
Theorem setitem_keeps_order (db : Database) (k : string) (v : value) :
  keys (setitem k v db)
    = if bool_decide (k ∈ keys db) then keys db else keys db ++ [k].
Proof. unfold keys, setitem. cbn [contents]. apply dict_keys_set. Qed.

Lemma fold_len (l : list string) (a : Z) :
  fold_left (fun result itm => (result + Z.of_nat (String.length itm))%Z) l a
    = (a + Z.of_nat (sum_list (String.length <$> l)))%Z.
Proof.
  revert a. induction l as [|k l IH]; intros a; cbn [fold_left fmap list_fmap sum_list].
  - lia.
  - rewrite IH. cbn. lia.
Qed.

Lemma sum_lengths_zero (l : list string) :
  sum_list (String.length <$> l) = 0 ↔ Forall (fun k => k = "") l.
Proof.
  induction l as [|k l IH]; cbn.
  - split; [constructor | done].
  - rewrite Forall_cons, <- IH. destruct k; cbn; [|split; [lia | by intros [? _]]].
    split; [done | by intros [_ ?]].
Qed.

(** X10.  [len(db)] has nothing to do with the values: it raises
    ValueError when the store has no key, or only the empty key, and is
    otherwise one less than the number of characters of all the keys. *)
Theorem len_counts_key_characters (db : Database) :
  DatabaseBase.len db
    = if bool_decide (Forall (fun k => k = "") (keys db))
      then Raise ValueError
      else Ok (Z.of_nat (sum_list (String.length <$> keys db)) - 1)%Z.
Proof.
  unfold DatabaseBase.len, DatabaseBase.__len__. rewrite fold_len.
  case_bool_decide as Hall.
  - apply sum_lengths_zero in Hall. fold (keys db) in Hall. rewrite Hall. done.
  - rewrite <- sum_lengths_zero in Hall.
    destruct (Z.ltb_spec (-1 + Z.of_nat (sum_list (String.length <$> keys db))) 0).
    + lia.
    + f_equal. lia.
Qed.

End DictFacts.

(* ===================================================================== *)
(** * The keys of an initialized store *)
(* ===================================================================== *)

Section KeyFacts.
Import SphinxDatabase Phases.

Lemma data_key_not_metadata (k : string) :
  is_data_key k → k ≠ SITE_KEY ∧ k ≠ VERSION_KEY ∧ k ≠ STATS_KEY.
Proof. intros [cls ->]. repeat split; discriminate. Qed.

Lemma merge_def_reading url v (kv : option string * list nat) :
  keeps (fun s => reading url v (fst s)) (merge_def kv).
Proof.
  intros [db st] r s'. cbn [fst]. destruct kv as [[cls|] _entries];
    unfold merge_def, bind, lift, str_add; cbn [fst snd];
    [|by intros HP [= _ <-]].
  intros HP. pose proof HP as (Hi & Hs & Hv & data_keys & Hk & Hd & Hn).
  assert (Hkey : is_data_key ("data/type/" +:+ cls)) by by exists cls.
  destruct (data_key_not_metadata _ Hkey) as (Hns & Hnv & _).
  assert (Hgen : ∀ val n,
    reading url v (set_total n (setitem ("data/type/" +:+ cls) val db))).
  { intros val n. split; [done|]. cbn [contents set_total setitem].
    rewrite !dict_get_set_ne by done. split; [done|]. split; [done|].
    unfold keys in *. cbn [contents set_total setitem].
    rewrite dict_keys_set, Hk.
    case_bool_decide as Hin.
    - by exists data_keys.
    - exists (data_keys ++ ["data/type/" +:+ cls]). split; [done|].
      split; [apply Forall_app; split; [done | by constructor]|].
      apply NoDup_app. split; [done|]. split; [|apply NoDup_singleton].
      intros x Hx ->%list_elem_of_singleton. apply Hin. by do 2 right. }
  destruct (dict_get ("data/type/" +:+ cls) (contents db)) as [v0|] eqn:Hg.
  - destruct v0 as [| | | |cur_entries]; try (by intros [= _ <-]).
    destruct (unique_entries (heap st) cur_entries _entries) as [unique|e];
      [|by intros [= _ <-]].
    intros [= _ <-]. apply Hgen.
  - intros [= _ <-]. apply Hgen.
Qed.

Lemma pages_reading url v (w : site) :
  keeps (fun s => reading url v (fst s)) (pages w).
Proof.
  apply keeps_except_KeyError, keeps_for_each. intros link.
  unfold do_link.
  apply keeps_bind; [apply keeps_get_db | intros db].
  apply keeps_bind; [apply keeps_lift | intros dls].
  apply keeps_bind; [apply (keeps_on_py_store (reading url v)) | intros defs].
  apply keeps_for_each, merge_def_reading.
Qed.

Lemma start_reading (v : option string) (url : string) :
  reading url v (start v (create url)).
Proof.
  split; [done|]. split; [done|]. split; [done|].
  exists []. split; [done|]. split; constructor.
Qed.

(** What a completed [initialize] leaves in a newly created store. *)
Lemma initialize_keys (w : site) (url : string) (st st' : pystate) (db' : Database) :
  initialize w (create url, st) = (Ok tt, (db', st')) →
  ∃ v data_keys,
    sphinx_version w = Ok v ∧
    epaths db' = SITE_KEY :: VERSION_KEY :: data_keys ++ [STATS_KEY] ∧
    keys db' = epaths db' ∧
    Forall is_data_key data_keys ∧
    NoDup data_keys ∧
    getitem db' SITE_KEY = Ok (VStr (url +:+ "/index.html")) ∧
    getitem db' VERSION_KEY = Ok (of_pyval v).
Proof.
  rewrite initialize_phases by done. cbn [fst snd].
  destruct (sphinx_version w) as [v|e]; [|done].
  destruct (pages w (start v (create url), st)) as [[[]|e] s1] eqn:E; [|done].
  intros [= <- <-].
  destruct (pages_reading url v w (start v (create url), st) _ _
              (start_reading v url) E)
    as (Hi & Hs & Hv & data_keys & Hk & Hd & Hn).
  exists v, data_keys. split; [done|].
  assert (Hkeys : keys (finish (fst s1))
                  = SITE_KEY :: VERSION_KEY :: data_keys ++ [STATS_KEY]).
  { unfold finish, keys in *. cbn [contents set_initialized set_epaths setitem set_total].
    rewrite dict_keys_set, Hk. rewrite bool_decide_eq_false_2; [done|].
    rewrite !elem_of_cons. intros [?|[?|Hin]]; [done | done |].
    rewrite Forall_forall in Hd. apply Hd in Hin.
    by apply data_key_not_metadata in Hin as (_ & _ & ?). }
  split; [exact Hkeys|]. split; [by rewrite Hkeys|].
  split; [done|]. split; [done|].
  unfold getitem, finish. cbn [contents set_initialized set_epaths setitem set_total].
  rewrite !dict_get_set_ne by done. by rewrite Hs, Hv.
Qed.

(** X11.  After [initialize] has returned on a newly created store, the
    snapshot of paths is the list of keys of the contents: first the site
    URL and the version, then the data keys, each [data/type/] followed by
    a class and none twice, then the statistics key; the site URL key holds
    the URL of the start page and the version key the version read. *)
Theorem initialize_key_snapshot
    (w : site) (url : string) (st st' : pystate) (db' : Database) :
  initialize w (create url, st) = (Ok tt, (db', st')) →
  ∃ v data_keys,
    sphinx_version w = Ok v ∧
    epaths db' = SITE_KEY :: VERSION_KEY :: data_keys ++ [STATS_KEY] ∧
    keys db' = epaths db' ∧
    Forall is_data_key data_keys ∧
    NoDup data_keys ∧
    getitem db' SITE_KEY = Ok (VStr (url +:+ "/index.html")) ∧
    getitem db' VERSION_KEY = Ok (of_pyval v).
Proof. apply initialize_keys. Qed.

Lemma initialize_key_snapshot_witness :
  ∃ v data_keys,
    sphinx_version Sample.site_small = Ok v ∧
    epaths (Sample.store Sample.site_small)
      = SITE_KEY :: VERSION_KEY :: data_keys ++ [STATS_KEY] ∧
    keys (Sample.store Sample.site_small) = epaths (Sample.store Sample.site_small) ∧
    Forall is_data_key data_keys ∧
    NoDup data_keys ∧
    getitem (Sample.store Sample.site_small) SITE_KEY
      = Ok (VStr (Sample.url +:+ "/index.html")) ∧
    getitem (Sample.store Sample.site_small) VERSION_KEY = Ok (of_pyval v).
Proof.
  apply (initialize_key_snapshot Sample.site_small Sample.url empty_state
           (snd (snd (Sample.run Sample.site_small)))).
  vm_compute. reflexivity.
Defined.

(** X12.  After [initialize] has returned on a newly created store, the
    primary type of every path is [data] or [metadata]. *)
Theorem initialize_primary_types
    (w : site) (url : string) (st st' : pystate) (db' : Database) (k : string) :
  initialize w (create url, st) = (Ok tt, (db', st')) →
  k ∈ epaths db' →
  primary_type k = "data" ∨ primary_type k = "metadata".
Proof.
  intros H Hk.
  destruct (initialize_keys w url st st' db' H)
    as (v & data_keys & _ & He & _ & Hd & _).
  rewrite He, !elem_of_cons, elem_of_app, list_elem_of_singleton in Hk.
  destruct Hk as [->|[->|[Hin| ->]]]; [by right | by right | | by right].
  rewrite Forall_forall in Hd. destruct (Hd _ Hin) as [cls ->]. by left.
Qed.

Lemma initialize_primary_types_witness :
  primary_type "data/type/role" = "data" ∨ primary_type "data/type/role" = "metadata".
Proof.
  apply (initialize_primary_types Sample.site_small Sample.url empty_state
           (snd (snd (Sample.run Sample.site_small)))
           (Sample.store Sample.site_small)).
  - vm_compute. reflexivity.
  - apply (proj1 (bool_decide_eq_true _)). vm_compute. reflexivity.
Defined.

(** X13.  A call of [initialize] that raises leaves the store not
    initialized, so that reading its paths then raises InvalidStateError,
    whatever was stored before the exception. *)
Theorem initialize_raise_not_initialized
    (w : site) (url : string) (st : pystate) (e : exn) (s' : Database * pystate) :
  initialize w (create url, st) = (Raise e, s') →
  initialized (fst s') = false ∧
  get_epaths (fst s') = Raise InvalidStateError.
Proof.
  rewrite initialize_phases by done. cbn [fst snd].
  assert (Hu : ∀ db, initialized db = false →
                     initialized db = false ∧ get_epaths db = Raise InvalidStateError).
  { intros db Hi. split; [done|]. unfold get_epaths. by rewrite Hi. }
  destruct (sphinx_version w) as [v|e0]; [|by intros [= _ <-]; apply Hu].
  destruct (pages w (start v (create url), st)) as [[[]|e1] s1] eqn:E; [done|].
  intros [= _ <-]. apply Hu.
  by destruct (pages_reading url v w (start v (create url), st) _ _
                 (start_reading v url) E) as (Hi & _).
Qed.

Lemma initialize_raise_not_initialized_witness :
  get_epaths (fst (snd (initialize Sample2.site_unreadable
                          (create Sample.url, empty_state))))
  = Raise InvalidStateError.
Proof.
  apply (initialize_raise_not_initialized Sample2.site_unreadable Sample.url
           empty_state IOError).
  vm_compute. reflexivity.
Defined.

(** When the version of the site could be read, [initialize] never raises
    a KeyError. *)
Lemma initialize_never_KeyError
    (w : site) (v : option string) (s s' : Database * pystate) :
  sphinx_version w = Ok v →
  initialize w s ≠ (Raise KeyError, s').
Proof.
  intros Hv. destruct (initialized (fst s)) eqn:Hi.
  - by rewrite initialize_noop.
  - rewrite initialize_phases, Hv by done. unfold pages, except_KeyError.
    destruct (for_each REGISTRY_links (do_link w) _) as [[[]|[]] s1]; done.
Qed.

(** A loop that raises in the body for [x] ends there: the elements after
    [x] are not visited. *)
Lemma for_each_raise {S A} (pre post : list A) (x : A) (body : A → M S unit)
    (e : exn) (s s1 s2 : S) :
  for_each pre body s = (Ok tt, s1) →
  body x s1 = (Raise e, s2) →
  for_each (pre ++ x :: post) body s = (Raise e, s2).
Proof.
  revert s. induction pre as [|y pre IH]; intros s; cbn [for_each app].
  - unfold ret, bind. intros [= <-] ->. done.
  - unfold bind. destruct (body y s) as [[[]|e0] s0]; [|done].
    intros H1 H2. by apply IH.
Qed.

(** X14.  A KeyError raised while a page is read ends the reading and is
    not passed on: when the pages before it were read and the version of
    the site could be read, [initialize] returns, the store is initialized
    and holds what the pages before had given, with the statistics key
    added and the running total one higher; the pages after it are not
    read. *)
Theorem initialize_KeyError_ends_reading
    (w : site) (v : option string) (s s1 : Database * pystate)
    (pre post : list string) (link : string) :
  initialized (fst s) = false →
  sphinx_version w = Ok v →
  REGISTRY_links = pre ++ link :: post →
  for_each pre (do_link w) (start v (fst s), snd s) = (Ok tt, s1) →
  page_dls w (site_url (fst s1) +:+ "/" +:+ link) = Raise KeyError →
  initialize w s = (Ok tt, (finish (fst s1), snd s1)) ∧
  initialized (finish (fst s1)) = true ∧
  total_entries (finish (fst s1)) = (total_entries (fst s1) + 1)%Z ∧
  contents (finish (fst s1))
    = dict_set STATS_KEY (VInt (total_entries (fst s1) + 1)) (contents (fst s1)).
Proof.
  intros Hi Hv Hl Hpre Hpage.
  rewrite initialize_phases, Hv by done. unfold pages, except_KeyError.
  rewrite Hl.
  rewrite (for_each_raise pre post link (do_link w) KeyError _ s1 s1 Hpre).
  - done.
  - unfold do_link, bind, get_db, lift. by rewrite Hpage.
Qed.

Lemma initialize_KeyError_ends_reading_witness :
  let r := initialize Sample2.site_keyerror (create Sample.url, empty_state) in
  fst r = Ok tt ∧
  keys (fst (snd r)) = [SITE_KEY; VERSION_KEY; "data/type/function"; STATS_KEY] ∧
  getitem (fst (snd r)) STATS_KEY = Ok (VInt 4).
Proof.
  intros r.
  destruct (initialize_KeyError_ends_reading Sample2.site_keyerror (Some "1.2")
              (create Sample.url, empty_state)
              (snd (for_each ["config.html"] (do_link Sample2.site_keyerror)
                      (start (Some "1.2") (create Sample.url), empty_state)))
              ["config.html"] (tail (tail REGISTRY_links)) "domains.html")
    as (H & _); [reflexivity | reflexivity | reflexivity | | |].
  - vm_compute. reflexivity.
  - vm_compute. reflexivity.
  - subst r. rewrite H. vm_compute. done.
Defined.

End KeyFacts.

(* ===================================================================== *)
(** * More on the read interface *)
(* ===================================================================== *)

Section ReadFacts.
Import SphinxDatabase.
Context {relib : Re.Library}.

Lemma filter_sublist_of {A} (f : A → bool) (l : list A) :
  sublist (List.filter f l) l.
Proof.
  induction l as [|x l IH]; cbn; [constructor|].
  destruct (f x); by constructor.
Qed.

(** X15.  Whatever the pattern, what [expand_epath] returns is made of
    stored paths, in stored order and without repeating a path more often
    than the store does: it is a sublist of the snapshot of paths. *)
Theorem expand_epath_sublist (db : Database) (epath : string) (l : list string) :
  expand_epath db epath = Ok l →
  sublist l (epaths db).
Proof.
  unfold expand_epath, get_epaths.
  destruct (initialized db); cbn [negb rbind]; [|by destruct (has_wildcard epath)].
  destruct (has_wildcard epath).
  - rewrite filter_epaths_unfold. destruct (epaths db) as [|ep eps] eqn:E.
    + intros [= <-]. constructor.
    + destruct (Re.compile_epath epath) as [pat|]; [|done]. cbn [rbind].
      intros [= <-]. apply (filter_sublist_of pat (ep :: eps)).
  - case_bool_decide as Hin; [|done]. intros [= <-].
    by apply singleton_sublist_l.
Qed.

(** X16.  On an initialized store, [get_data] with a path without wildcard
    raises ValueError when the path is not in the snapshot of paths (it
    does not return [None]), and returns the value stored under it when it
    is. *)
Theorem get_data_exact_path (db : Database) (epath : string) :
  initialized db = true →
  has_wildcard epath = false →
  get_data db (Some epath)
    = if bool_decide (epath ∈ epaths db)
      then Ok (default VNone (dict_get epath (contents db)))
      else Raise ValueError.
Proof.
  intros Hi Hw. unfold get_data, expand_epath, get_epaths.
  rewrite Hi, Hw. cbn [isinstance_str negb rbind].
  case_bool_decide; cbn [rbind length Nat.ltb Nat.leb]; [|done].
  by destruct (dict_get epath (contents db)).
Qed.

(** X17.  [get_data] never raises a KeyError, whatever the store and the
    argument. *)
Theorem get_data_never_KeyError (db : Database) (epath : option string) :
  get_data db epath ≠ Raise KeyError.
Proof.
  destruct epath as [epath|]; [|done].
  unfold get_data, expand_epath, get_epaths. cbn [isinstance_str negb].
  destruct (initialized db); cbn [negb rbind]; [|by destruct (has_wildcard epath)].
  destruct (has_wildcard epath).
  - rewrite filter_epaths_unfold. destruct (epaths db) as [|ep eps].
    + cbn. by destruct (dict_get epath (contents db)).
    + destruct (Re.compile_epath epath) as [pat|e] eqn:E; cbn [rbind].
      * destruct (1 <? _)%nat; [done|].
        by destruct (dict_get epath (contents db)).
      * by apply compile_epath_raise in E as ->.
  - case_bool_decide; cbn [rbind]; [|done].
    cbn. by destruct (dict_get epath (contents db)).
Qed.

End ReadFacts.

(* ===================================================================== *)
(** * The sample runs *)
(* ===================================================================== *)

Section SampleRuns.
Import SphinxDatabase.
#[local] Existing Instance Sample.re_library.

Lemma expand_epath_ValueError_iff_witness :
  let db := Sample.store Sample.site_small in
  expand_epath db "nosuch" = Raise ValueError ∧
  expand_epath db "nosuch*" = Ok [] ∧
  expand_epath db "data/type/(*" = Raise ReError ∧
  expand_epath db "data/type/[rc]*"
    = Ok ["data/type/role"; "data/type/class"; "data/type/confval"].
Proof.
  intros db.
  assert (Hi : initialized db = true) by (vm_compute; reflexivity).
  split; [|split; [|split]].
  - apply (proj1 (expand_epath_ValueError_iff db "nosuch" Hi)).
    split; [vm_compute; reflexivity|].
    apply (proj1 (bool_decide_eq_false _)). vm_compute. reflexivity.
  - destruct (expand_epath_ValueError_iff db "nosuch*" Hi) as (_ & _ & _ & H4).
    etrans; [apply H4; vm_compute; reflexivity|]. vm_compute. reflexivity.
  - destruct (expand_epath_ValueError_iff db "data/type/(*" Hi) as (_ & _ & H3 & _).
    etrans; [apply H3; vm_compute; reflexivity|]. vm_compute. reflexivity.
  - destruct (expand_epath_ValueError_iff db "data/type/[rc]*" Hi) as (_ & _ & H3 & _).
    etrans; [apply H3; vm_compute; reflexivity|]. vm_compute. reflexivity.
Defined.

Lemma initialize_idempotent_witness :
  initialize Sample.site_overloads (snd (Sample.run Sample.site_small))
    = (Ok tt, snd (Sample.run Sample.site_small)).
Proof.
  apply (initialize_idempotent Sample.site_small Sample.site_overloads
           (create Sample.url, empty_state)).
  vm_compute. reflexivity.
Defined.


Lemma writer_needs_initialized_store_witness :
  Writers.construct (fun p => Ok p) (Ok tt) CSVWriter
    (Some (create Sample.url)) "out" = Raise ValueError.
Proof.
  apply (writer_needs_initialized_store (fun p => Ok p) (Ok tt) CSVWriter
           (Some (create Sample.url)) "out").
  right. exists (create Sample.url). split; reflexivity.
Defined.


(** C7, as stated, fails: no stored path matches [nosuch*], by the code's
    matching as by glob matching, and [expand_epath] returns the empty list
    where the claim wants a ValueError. *)
Lemma expand_epath_no_match_is_empty :
  let db := Sample.store Sample.site_small in
  initialized db = true ∧
  List.filter (Glob.matches "nosuch*") (epaths db) = [] ∧
  expand_epath db "nosuch*" = Ok [] ∧
  expand_epath db "nosuch*" ≠ Raise ValueError.
Proof. vm_compute. done. Qed.

Lemma expand_epath_sublist_witness :
  sublist ["data/type/class"; "data/type/confval"]
    (epaths (Sample.store Sample.site_small)).
Proof.
  apply (expand_epath_sublist (Sample.store Sample.site_small) "data/type/c*").
  vm_compute. reflexivity.
Defined.


Lemma get_data_exact_path_witness :
  get_data (Sample.store Sample.site_small) (Some "data/type/nosuch")
  = Raise ValueError.
Proof.
  etrans; [apply get_data_exact_path; vm_compute; reflexivity|].
  vm_compute. reflexivity.
Defined.


End SampleRuns.

(* ===================================================================== *)
(** * Properties of the string utilities *)
(* ===================================================================== *)

Section StringFacts.

Lemma append_cons (c : ascii) (a b : string) :
  String c a +:+ b = String c (a +:+ b).
Proof. done. Qed.

Lemma append_nil_l (a : string) : "" +:+ a = a.
Proof. done. Qed.

Lemma append_length (a b : string) :
  String.length (a +:+ b) = String.length a + String.length b.
Proof.
  induction a as [|c a IH]; [done|].
  rewrite append_cons. cbn [String.length]. by rewrite IH.
Qed.

Lemma append_inj_tail (a b t : string) : a +:+ t = b +:+ t → a = b.
Proof.
  revert b. induction a as [|c a IH]; intros [|d b] H.
  - done.
  - apply (f_equal String.length) in H. rewrite !append_length in H.
    cbn in H. lia.
  - apply (f_equal String.length) in H. rewrite !append_length in H.
    cbn in H. lia.
  - rewrite !append_cons in H. injection H as -> H. f_equal. by apply IH.
Qed.

Lemma append_inj_head (h a b : string) : h +:+ a = h +:+ b → a = b.
Proof.
  induction h as [|c h IH]; [done|]. rewrite !append_cons. intros [= H].
  by apply IH.
Qed.

Lemma str_contains_append (c : ascii) (a b : string) :
  str_contains c (a +:+ b) = str_contains c a || str_contains c b.
Proof.
  induction a as [|x a IH]; [done|]. rewrite append_cons. cbn [str_contains].
  by destruct (Ascii.eqb c x).
Qed.

(** ** CSVWriter._sanitize_data *)


Lemma double_quotes_cons (c : ascii) (s : string) :
  Utils.str_replace CSVWriterM.quote CSVWriterM.quotes (String c s)
    = if Ascii.ascii_dec Utils.dquote c
      then String Utils.dquote
             (String Utils.dquote
                (Utils.str_replace CSVWriterM.quote CSVWriterM.quotes s))
      else String c (Utils.str_replace CSVWriterM.quote CSVWriterM.quotes s).
Proof.
  unfold Utils.str_replace, CSVWriterM.quotes, CSVWriterM.quote.
  cbn [Utils.replace_from String.prefix].
  destruct (Ascii.ascii_dec Utils.dquote c); destruct s; reflexivity.
Qed.

Lemma double_quotes_inj (a : string) :
  ∀ b, Utils.str_replace CSVWriterM.quote CSVWriterM.quotes a
       = Utils.str_replace CSVWriterM.quote CSVWriterM.quotes b → a = b.
Proof.
  induction a as [|c a IH]; intros [|d b].
  - done.
  - rewrite double_quotes_cons. by destruct (Ascii.ascii_dec _ d).
  - rewrite double_quotes_cons. by destruct (Ascii.ascii_dec _ c).
  - rewrite !double_quotes_cons.
    destruct (Ascii.ascii_dec Utils.dquote c) as [<-|Hc],
             (Ascii.ascii_dec Utils.dquote d) as [<-|Hd].
    + intros [= H]. f_equal. by apply IH.
    + intros [= H _]. congruence.
    + intros [= H _]. congruence.
    + intros [= -> H]. f_equal. by apply IH.
Qed.

(** X18.  [_sanitize_data] loses nothing: two values with the same
    sanitized form are the same value. *)
Theorem _sanitize_data_injective (a b : string) :
  CSVWriterM._sanitize_data a = CSVWriterM._sanitize_data b → a = b.
Proof.
  unfold CSVWriterM._sanitize_data. intros H.
  apply append_inj_head, append_inj_tail in H. by apply double_quotes_inj.
Qed.

Lemma _sanitize_data_injective_witness : "He said" = "He said".
Proof.
  apply (_sanitize_data_injective "He said" "He said"). reflexivity.
Defined.

(** ** html_escape *)

Lemma escape_chars_cons (c : ascii) (text : string) :
  Utils.escape_chars (String c text)
    = Utils.html_escape_table c +:+ Utils.escape_chars text.
Proof. done. Qed.

Ltac table_cases c :=
  unfold Utils.html_escape_table;
  destruct (Ascii.eqb_spec c "&") as [->|?];
  [|destruct (Ascii.eqb_spec c Utils.dquote) as [->|?];
    [|destruct (Ascii.eqb_spec c "'") as [->|?];
      [|destruct (Ascii.eqb_spec c ">") as [->|?];
        [|destruct (Ascii.eqb_spec c "<") as [->|?]]]]].

(** X19.  Escaped text holds none of the characters [<], [>], the single
    and the double quote. *)
Theorem html_escape_no_markup (text : string) :
  str_contains "<" (Utils.html_escape text false) = false ∧
  str_contains ">" (Utils.html_escape text false) = false ∧
  str_contains "'" (Utils.html_escape text false) = false ∧
  str_contains Utils.dquote (Utils.html_escape text false) = false.
Proof.
  unfold Utils.html_escape.
  induction text as [|c text (IH1 & IH2 & IH3 & IH4)]; [done|].
  rewrite escape_chars_cons, !str_contains_append, IH1, IH2, IH3, IH4.
  table_cases c; cbn [str_contains]; rewrite ?orb_false_r;
    repeat split; try reflexivity;
    match goal with
    | |- context [Ascii.eqb ?x c] => destruct (Ascii.eqb_spec x c); congruence
    end.
Qed.

(** X20.  Escaping loses nothing: two texts with the same escaped form are
    the same text. *)
Theorem html_escape_injective (a : string) :
  ∀ b, Utils.html_escape a false = Utils.html_escape b false → a = b.
Proof.
  unfold Utils.html_escape.
  induction a as [|c a IH]; intros [|d b].
  - done.
  - rewrite escape_chars_cons. table_cases d; by rewrite ?append_cons.
  - rewrite escape_chars_cons. table_cases c; by rewrite ?append_cons.
  - rewrite !escape_chars_cons.
    table_cases c; table_cases d;
      rewrite ?append_cons, ?append_nil_l; intros H;
      simplify_eq; try done; f_equal; by apply IH.
Qed.

Lemma html_escape_injective_witness : "a<b" = "a<b".
Proof. apply (html_escape_injective "a<b" "a<b"). reflexivity. Defined.

(** ** html_escape with convert_spaces *)

Lemma prefix_nil (s : string) : String.prefix "" s = true.
Proof. by destruct s. Qed.

Lemma str_in_cons (n : string) (x : ascii) (t : string) :
  Main.str_in n (String x t) = String.prefix n (String x t) || Main.str_in n t.
Proof. cbn [Main.str_in]. by destruct (String.prefix n (String x t)). Qed.

Lemma spaces_cons_double (s : string) :
  Utils.str_replace "  " "&nbsp; " (String " " (String " " s))
    = "&nbsp; " +:+ Utils.str_replace "  " "&nbsp; " s.
Proof. by destruct s. Qed.

Lemma spaces_cons_other (c : ascii) (s : string) :
  String.prefix "  " (String c s) = false →
  Utils.str_replace "  " "&nbsp; " (String c s)
    = String c (Utils.str_replace "  " "&nbsp; " s).
Proof. unfold Utils.str_replace. cbn [Utils.replace_from]. by intros ->. Qed.

Lemma double_or_not (c : ascii) (s : string) :
  (c = " "%char ∧ ∃ s', s = String " " s') ∨
  (String.prefix "  " (String c s) = false ∧
   (c = " "%char → String.prefix " " s = false)).
Proof.
  cbn [String.prefix]. destruct (Ascii.ascii_dec " " c) as [<-|Hc].
  - destruct s as [|d s']; [by right|]. cbn [String.prefix].
    destruct (Ascii.ascii_dec " " d) as [<-|Hd]; [left; eauto | by right].
  - right. split; [done | congruence].
Qed.

Lemma spaces_first (s : string) :
  String.prefix " " (Utils.str_replace "  " "&nbsp; " s) = true →
  String.prefix " " s = true.
Proof.
  destruct s as [|c s]; [done|].
  destruct (double_or_not c s) as [[-> [s' ->]]|[Hn _]].
  - by rewrite spaces_cons_double.
  - rewrite spaces_cons_other by done. cbn [String.prefix].
    destruct (Ascii.ascii_dec " " c); [by rewrite !prefix_nil | done].
Qed.

Lemma spaces_first_false (s : string) :
  String.prefix " " s = false →
  String.prefix " " (Utils.str_replace "  " "&nbsp; " s) = false.
Proof.
  intros H. destruct (String.prefix " " (Utils.str_replace _ _ s)) eqn:E; [|done].
  apply spaces_first in E. congruence.
Qed.

Lemma nbsp_in (n : string) (x : string) :
  Main.str_in (String " " (String " " n)) ("&nbsp; " +:+ x)
    = String.prefix (String " " n) x || Main.str_in (String " " (String " " n)) x.
Proof.
  change ("&nbsp; " +:+ x)
    with (String "&" (String "n" (String "b" (String "s" (String "p"
           (String ";" (String " " x))))))).
  rewrite !str_in_cons. cbn [String.prefix]. destruct x; done.
Qed.

Lemma prefix_single (n : string) (x y c : ascii) :
  String.prefix (String x (String y n)) (String c "") = false.
Proof. cbn [String.prefix]. by destruct (Ascii.ascii_dec x c). Qed.

Lemma two_step (P : string → Prop) :
  P "" → (∀ c, P (String c "")) →
  (∀ c d s, P s → P (String d s) → P (String c (String d s))) →
  ∀ s, P s.
Proof.
  intros H0 H1 H2 s.
  assert (H : P s ∧ ∀ c, P (String c s)); [|by destruct H].
  induction s as [|d s [IHa IHb]]; [done|].
  split; [apply IHb|]. intros c. by apply H2.
Qed.

Lemma spaces_once (s : string) :
  Main.str_in "   " (Utils.str_replace "  " "&nbsp; " s) = false ∧
  String.prefix "  " (Utils.str_replace "  " "&nbsp; " s) = false.
Proof.
  induction s as [| c | c d s [IH3 IH2] [IHd3 IHd2]] using two_step.
  - done.
  - rewrite spaces_cons_other by apply prefix_single.
    by rewrite str_in_cons, !prefix_single.
  - destruct (double_or_not c (String d s)) as [[-> [s' [= -> ->]]]|[Hn Hp]].
    + rewrite spaces_cons_double. split; [|done].
      by rewrite nbsp_in, IH2, IH3.
    + rewrite spaces_cons_other by done. rewrite str_in_cons, IHd3.
      cbn [String.prefix].
      destruct (Ascii.ascii_dec " " c) as [<-|Hc]; [|done].
      rewrite IHd2. split; [done|]. apply spaces_first_false. by apply Hp.
Qed.

Lemma spaces_twice (t : string) :
  Main.str_in "   " t = false →
  Main.str_in "  " (Utils.str_replace "  " "&nbsp; " t) = false.
Proof.
  induction t as [| c | c d s IH IHd] using two_step.
  - done.
  - intros _. rewrite spaces_cons_other by apply prefix_single.
    by rewrite str_in_cons, !prefix_single.
  - rewrite !str_in_cons. intros [H0 [H1 H2]%orb_false_elim]%orb_false_elim.
    assert (Hd : Main.str_in "   " (String d s) = false)
      by (by rewrite str_in_cons, H1, H2).
    destruct (double_or_not c (String d s)) as [[-> [s' [= -> ->]]]|[Hn Hp]].
    + rewrite spaces_cons_double, nbsp_in, (IH H2).
      cbn [String.prefix] in H0. rewrite (spaces_first_false s') by done. done.
    + rewrite spaces_cons_other by done. rewrite str_in_cons, (IHd Hd).
      cbn [String.prefix].
      destruct (Ascii.ascii_dec " " c) as [<-|Hc]; [|done].
      by rewrite spaces_first_false by (by apply Hp).
Qed.

(** X21.  With [convert_spaces], the escaped text never holds two spaces
    in a row. *)
Theorem html_escape_no_double_space (text : string) :
  Main.str_in "  " (Utils.html_escape text true) = false.
Proof.
  unfold Utils.html_escape. apply spaces_twice, spaces_once.
Qed.

End StringFacts.

(* ===================================================================== *)
(** * The Database flyweight *)
(* ===================================================================== *)

Section FlyweightFacts.
Import DatabaseBase.

Lemma new_fresh_or_cached (url : string) (use_cached : bool) (st : dbstate) :
  (new url use_cached st
     = (length (db_heap st),
        {| db_heap := db_heap st ++ [None];
           db_classcache := db_classcache st |})) ∨
  (new url use_cached st = (fst (new url use_cached st), st) ∧
   db_classcache st !! url = Some (fst (new url use_cached st))).
Proof.
  unfold new. destruct (db_classcache st !! url) as [i|]; [|by left].
  destruct use_cached; cbn; [by right | by left].
Qed.

(** X22.  In a state where every cached URL names a set-up instance for
    that URL, a call of the constructor returns an instance whose site URL
    is the one asked for, leaves the cache pointing at that instance, and
    keeps the state that way. *)
Theorem call_instance_for_url (url : string) (use_cached : bool) (st : dbstate) :
  cache_ok st →
  ∃ db, db_heap (snd (call url use_cached st)) !! fst (call url use_cached st)
          = Some (Some db) ∧
        site_url db = url ∧
        db_classcache (snd (call url use_cached st)) !! url
          = Some (fst (call url use_cached st)) ∧
        cache_ok (snd (call url use_cached st)).
Proof.
  intros Hok. unfold call.
  destruct (new_fresh_or_cached url use_cached st) as [->|[-> Hc]].
  - cbn [fst snd]. unfold init. cbn [db_heap db_classcache].
    rewrite lookup_app_r, Nat.sub_diag by done. cbn.
    exists (SphinxDatabase.create url).
    assert (Hh : ∀ x, <[length (db_heap st) := x]> (db_heap st ++ [None])
                      = db_heap st ++ [x]).
    { intros x. rewrite insert_app_r_alt, Nat.sub_diag by done. done. }
    rewrite Hh. split; [|split; [done|split]].
    + rewrite lookup_app_r, Nat.sub_diag by done. done.
    + by rewrite lookup_insert_eq.
    + intros u i. cbn [db_heap db_classcache].
      destruct (decide (u = url)) as [->|Hne].
      * rewrite lookup_insert_eq. intros [= <-].
        exists (SphinxDatabase.create url).
        rewrite lookup_app_r, Nat.sub_diag by done. done.
      * rewrite lookup_insert_ne by done. intros Hu.
        destruct (Hok u i Hu) as (db & Hdb & Hs). exists db.
        split; [|done]. rewrite lookup_app_l; [done|].
        by apply lookup_lt_Some in Hdb.
  - set (i := fst (new url use_cached st)) in *. cbn [fst snd].
    destruct (Hok url i Hc) as (db & Hdb & Hs). unfold init. rewrite Hdb.
    destruct (initialized db) eqn:Hi.
    + exists db. by rewrite Hdb.
    + exists (SphinxDatabase.create url). cbn [db_heap db_classcache].
      rewrite list_lookup_insert_eq by (by apply lookup_lt_Some in Hdb).
      rewrite lookup_insert_eq. split; [done|split; [done|split; [done|]]].
      intros u j. cbn [db_heap db_classcache].
      destruct (decide (u = url)) as [->|Hne].
      * rewrite lookup_insert_eq. intros [= <-].
        exists (SphinxDatabase.create url).
        by rewrite list_lookup_insert_eq by (by apply lookup_lt_Some in Hdb).
      * rewrite lookup_insert_ne by done. intros Hu.
        destruct (Hok u j Hu) as (db' & Hdb' & Hs').
        destruct (decide (j = i)) as [->|Hj].
        -- rewrite Hdb in Hdb'. injection Hdb' as <-. congruence.
        -- exists db'. by rewrite list_lookup_insert_ne.
Qed.

Lemma call_instance_for_url_witness :
  cache_ok empty ∧
  ∃ db, db_heap (snd (call "http://sphinx.pocoo.org" true empty))
          !! fst (call "http://sphinx.pocoo.org" true empty) = Some (Some db) ∧
        site_url db = "http://sphinx.pocoo.org" ∧
        db_classcache (snd (call "http://sphinx.pocoo.org" true empty))
          !! "http://sphinx.pocoo.org"
          = Some (fst (call "http://sphinx.pocoo.org" true empty)) ∧
        cache_ok (snd (call "http://sphinx.pocoo.org" true empty)).
Proof.
  assert (H : cache_ok empty).
  { intros u i. unfold empty. cbn [db_classcache]. by rewrite lookup_empty. }
  split; [exact H|]. exact (call_instance_for_url _ true empty H).
Defined.

(** X23.  A request for a cached store returns the cached instance; the
    store is left as it is when it is initialized, and is emptied, that is
    set up again from nothing, when it is not. *)
Theorem call_cached_resets_uninitialized
    (url : string) (st : dbstate) (i : nat) (db : Database) :
  db_classcache st !! url = Some i →
  db_heap st !! i = Some (Some db) →
  fst (call url true st) = i ∧
  db_heap (snd (call url true st)) !! i
    = Some (Some (if initialized db then db else SphinxDatabase.create url)) ∧
  (initialized db = true → snd (call url true st) = st).
Proof.
  intros Hc Hdb. unfold call, new. rewrite Hc. cbn [negb fst snd].
  unfold init. rewrite Hdb. destruct (initialized db) eqn:Hi.
  - by rewrite Hdb.
  - cbn [db_heap]. split; [done|]. split; [|done].
    by rewrite list_lookup_insert_eq by (by apply lookup_lt_Some in Hdb).
Qed.

Lemma call_cached_resets_uninitialized_witness :
  let st := {| db_heap :=
                 [Some (SphinxDatabase.setitem "data/type/role" (VStr "x")
                          (SphinxDatabase.create "u"))];
               db_classcache := {["u" := 0]} |} in
  fst (call "u" true st) = 0 ∧
  db_heap (snd (call "u" true st)) !! 0 = Some (Some (SphinxDatabase.create "u")).
Proof.
  intros st.
  destruct (call_cached_resets_uninitialized "u" st 0
              (SphinxDatabase.setitem "data/type/role" (VStr "x")
                 (SphinxDatabase.create "u")))
    as (H1 & H2 & _); [reflexivity | reflexivity |].
  split; [exact H1 | exact H2].
Defined.

(** X24.  With [use_cached=False] the constructor makes an instance that
    was not there before, empty and for the URL asked for, and the cache
    then names the new instance: the next cached request for the URL
    returns it, not the one the cache held. *)
Theorem call_bypass_replaces_cached (url : string) (st : dbstate) :
  fst (call url false st) = length (db_heap st) ∧
  db_heap (snd (call url false st)) !! length (db_heap st)
    = Some (Some (SphinxDatabase.create url)) ∧
  fst (call url true (snd (call url false st))) = length (db_heap st).
Proof.
  assert (Hn : new url false st
               = (length (db_heap st),
                  {| db_heap := db_heap st ++ [None];
                     db_classcache := db_classcache st |})).
  { unfold new. by destruct (db_classcache st !! url). }
  unfold call at 1 2 4. rewrite Hn. cbn [fst snd].
  unfold init. cbn [db_heap db_classcache].
  rewrite lookup_app_r, Nat.sub_diag by done. cbn [lookup list_lookup].
  rewrite insert_app_r_alt, Nat.sub_diag by done. cbn [insert list_insert].
  split; [done|]. split.
  - cbn [db_heap]. by rewrite lookup_app_r, Nat.sub_diag by done.
  - unfold call, new. cbn [db_classcache]. by rewrite lookup_insert_eq.
Qed.

End FlyweightFacts.

(* ===================================================================== *)
(** * The deprecated methods and the choice of formats *)
(* ===================================================================== *)

Section CliFacts.

(** X25.  A method wrapped by [deprecated] with a level of at least 1, the
    default, never runs: the call leaves the state as it was, and it
    returns [None] or raises the DeprecationWarning, whatever the method
    does.  At any level the caller never gets the value of the method. *)
Theorem deprecated_skips_body {S A} (level : Z) (func : M S A) (s : S) :
  (1 <= level)%Z →
  snd (Utils.deprecated level func s) = s ∧
  (fst (Utils.deprecated level func s) = Utils.Returns None ∨
   fst (Utils.deprecated level func s) = Utils.RaisesDeprecationWarning) ∧
  ∀ level' s' v, fst (Utils.deprecated level' func s') ≠ Utils.Returns (Some v).
Proof.
  intros Hl. split; [|split].
  - unfold Utils.deprecated.
    destruct (level <=? 0)%Z eqn:E0; [lia|].
    destruct (level =? 1)%Z; [done|]. by destruct (2 <=? level)%Z.
  - unfold Utils.deprecated.
    destruct (level <=? 0)%Z eqn:E0; [lia|].
    destruct (level =? 1)%Z; [by left|].
    destruct (2 <=? level)%Z; [by right | by left].
  - intros level' s' v. unfold Utils.deprecated.
    destruct (level' <=? 0)%Z.
    + by destruct (func s') as [[a|e] s''].
    + destruct (level' =? 1)%Z; [done|]. by destruct (2 <=? level')%Z.
Qed.

Lemma deprecated_skips_body_witness :
  snd (Utils.deprecated 1 (fun s : nat => (Ok tt, S s)) 0) = 0.
Proof.
  exact (proj1 (deprecated_skips_body 1 (fun s : nat => (Ok tt, S s)) 0
                  ltac:(lia))).
Defined.

Lemma split_nonempty (sep : ascii) (s : string) : Main.split sep s ≠ [].
Proof.
  induction s as [|c s IH]; [done|]. cbn [Main.split].
  destruct (Ascii.eqb c sep); [done|]. by destruct (Main.split sep s).
Qed.

Lemma check_formats_None (formats : list string) :
  Main.check_formats formats = None ↔
  Forall (λ f, f ∈ Main.VALID_FORMATS) formats.
Proof.
  induction formats as [|f fs IH]; cbn [Main.check_formats].
  - split; [constructor | done].
  - case_bool_decide as Hf.
    + rewrite IH. split; [by constructor | by inversion 1].
    + split; [done | by inversion 1].
Qed.

(** X26.  When the choice of formats goes through for a format string, the
    list is not empty and every format of it is one of the valid ones. *)
Theorem select_formats_valid (formatstr : string) (formats : list string) :
  Main.select_formats (Some formatstr) = Main.Formats formats →
  formats ≠ [] ∧ Forall (λ f, f ∈ Main.VALID_FORMATS) formats.
Proof.
  unfold Main.select_formats. destruct (Main.str_in "all" formatstr).
  - intros [= <-]. split; [done|]. by apply Forall_forall.
  - destruct (Main.check_formats (Main.split ":" formatstr)) eqn:E; [done|].
    intros [= <-]. split; [apply split_nonempty | by apply check_formats_None].
Qed.

Lemma select_formats_valid_witness :
  ["csv"; "html"] ≠ [] ∧ Forall (λ f, f ∈ Main.VALID_FORMATS) ["csv"; "html"].
Proof. exact (select_formats_valid "csv:html" ["csv"; "html"] eq_refl). Defined.

Lemma has_char_split (c sep : ascii) (s : string) :
  has_char c s = true →
  c ≠ sep →
  ∃ x, x ∈ Main.split sep s ∧ has_char c x = true.
Proof.
  intros H Hne. induction s as [|a s IH]; [done|].
  cbn [has_char] in H. cbn [Main.split].
  destruct (Ascii.eqb_spec a sep) as [->|Ha].
  - destruct (Ascii.eqb_spec sep c) as [->|_]; [done|].
    destruct (IH H) as (x & Hx & Hc). exists x. split; [by right | done].
  - pose proof (split_nonempty sep s) as Hs.
    destruct (Main.split sep s) as [|h t]; [done|].
    destruct (Ascii.eqb_spec a c) as [->|_].
    + exists (String c h). split; [by left|].
      cbn [has_char]. by rewrite Ascii.eqb_refl.
    + destruct (IH H) as (x & Hx & Hc).
      apply elem_of_cons in Hx as [->|Hx].
      * exists (String a h). split; [by left|].
        cbn [has_char]. rewrite Hc. by destruct (Ascii.eqb a c).
      * exists x. split; [by right | done].
Qed.

Lemma str_in_char (c : ascii) (s : string) :
  Main.str_in (String c "") s = has_char c s.
Proof.
  induction s as [|x r IH]; [done|]. cbn [Main.str_in has_char String.prefix].
  destruct (Ascii.ascii_dec c x) as [<-|Hne].
  - by rewrite prefix_nil, Ascii.eqb_refl.
  - rewrite IH. destruct (Ascii.eqb_spec x c); [congruence|done].
Qed.

(** X27.  Only the colon separates formats: a format string with a comma
    in it, and without "all", ends in the CLIError. *)
Theorem select_formats_comma_rejected (formatstr : string) :
  Main.str_in "," formatstr = true →
  Main.str_in "all" formatstr = false →
  ∃ format, Main.select_formats (Some formatstr) = Main.CLIError format.
Proof.
  rewrite str_in_char. intros Hc Ha. unfold Main.select_formats. rewrite Ha.
  destruct (Main.check_formats (Main.split ":" formatstr)) eqn:E; [by eexists|].
  apply check_formats_None in E.
  destruct (has_char_split "," ":" formatstr Hc) as (x & Hx & Hcx); [done|].
  rewrite Forall_forall in E. specialize (E x Hx).
  unfold Main.VALID_FORMATS in E. exfalso.
  repeat (apply elem_of_cons in E as [->|E]; [by vm_compute in Hcx|]).
  by apply elem_of_nil in E.
Qed.

Lemma select_formats_comma_rejected_witness :
  ∃ format, Main.select_formats (Some "csv,html") = Main.CLIError format.
Proof.
  exact (select_formats_comma_rejected "csv,html" eq_refl eq_refl).
Defined.

End CliFacts.

(* ===================================================================== *)
(** * The total counts unique entries *)
(* ===================================================================== *)

Section MergeFacts.
Import SphinxDatabase.

Lemma Forall_dict_set {K V} `{EqDecision K} (P : K * V → Prop)
    (k : K) (v : V) (d : list (K * V)) :
  Forall P d → P (k, v) → Forall P (dict_set k v d).
Proof.
  intros Hd Hv. induction Hd as [|[k' v'] d Hx Hd IH]; cbn [dict_set].
  - by constructor.
  - destruct (decide (k = k')) as [<-|Hne]; by constructor.
Qed.

Lemma Forall_dict_get {K V} `{EqDecision K} (P : K * V → Prop)
    (k : K) (v : V) (d : list (K * V)) :
  Forall P d → dict_get k d = Some v → P (k, v).
Proof.
  intros Hd. induction Hd as [|[k' v'] d Hx Hd IH]; cbn [dict_get]; [done|].
  destruct (decide (k = k')) as [->|Hne]; [by intros [= <-] | exact IH].
Qed.

(** ** Instances stay what they are when the heap grows *)

Lemma id_entry_lt h r : id_entry h r → r < length h.
Proof. intros (its & v & Hh & _). by apply lookup_lt_Some in Hh. Qed.

Lemma id_entry_mono h h' r : id_entry h r → id_entry (h ++ h') r.
Proof.
  intros (its & v & Hh & Hv). exists its, v. split; [|done].
  by apply lookup_app_l_Some.
Qed.

Lemma entry_id_mono h h' r : id_entry h r → entry_id (h ++ h') r = entry_id h r.
Proof.
  intros Hr. unfold entry_id, Entry.getitem.
  by rewrite lookup_app_l by (by apply id_entry_lt).
Qed.

Lemma unique_refs_mono h h' rs : unique_refs h rs → unique_refs (h ++ h') rs.
Proof.
  intros [Hf Hn]. split.
  - eapply Forall_impl; [exact Hf|]. intros r. apply id_entry_mono.
  - replace (map (entry_id (h ++ h')) rs) with (map (entry_id h) rs); [done|].
    apply Forall_fmap_ext_1. eapply Forall_impl; [exact Hf|].
    intros r Hr. symmetry. by apply entry_id_mono.
Qed.

Lemma stored_unique_mono h h' db : stored_unique h db → stored_unique (h ++ h') db.
Proof.
  unfold stored_unique. intros Hd. eapply Forall_impl; [exact Hd|].
  intros [k v]. cbn [snd].
  destruct v as [| | | |l]; try done.
  intros (rs & -> & Hu). exists rs. split; [done|]. by apply unique_refs_mono.
Qed.

(** ** Lists without repeated id *)

Lemma NoDup_map_filter {A B} (f : A → B) (P : A → Prop) `{∀ x, Decision (P x)}
    (l : list A) :
  NoDup (map f l) → NoDup (map f (filter P l)).
Proof.
  induction l as [|x l IH]; [done|]. cbn [map]. rewrite NoDup_cons.
  intros [Hx Hl]. rewrite filter_cons. destruct (decide (P x)); [|by apply IH].
  cbn [map]. apply NoDup_cons. split; [|by apply IH].
  intros Hin. apply Hx. apply list_elem_of_fmap in Hin as (y & -> & Hy).
  apply list_elem_of_fmap. exists y. split; [done|].
  by apply list_elem_of_filter in Hy as [_ Hy].
Qed.

Lemma unique_refs_merge h stored page :
  unique_refs h stored → unique_refs h page →
  unique_refs h
    (stored ++ filter (fun e => entry_id h e ∉ map (entry_id h) stored) page).
Proof.
  intros [Hs1 Hs2] [Hp1 Hp2]. split.
  - apply Forall_app. split; [done|].
    apply Forall_forall. intros e He. apply list_elem_of_filter in He as [_ He].
    rewrite Forall_forall in Hp1. by apply Hp1.
  - rewrite map_app. apply NoDup_app. split; [done|]. split.
    + intros x Hx Hin. apply list_elem_of_fmap in Hin as (e & -> & He).
      by apply list_elem_of_filter in He as [He _].
    + by apply NoDup_map_filter.
Qed.

(** ** Merging the entries of a page *)

Lemma merge_def_unique h (kv : option string * list nat) :
  unique_refs h (snd kv) →
  ∀ s r s',
    heap (snd s) = h →
    stored_unique h (fst s) →
    merge_def kv s = (r, s') →
    snd s' = snd s ∧ stored_unique h (fst s') ∧ site_url (fst s') = site_url (fst s).
Proof.
  intros Hu [db st] r s'. cbn [fst snd]. intros Hh Hs.
  destruct kv as [[cls|] refs]; unfold merge_def, bind, lift, str_add;
    cbn [fst snd] in *; [|by intros [= _ <-]].
  destruct (dict_get ("data/type/" +:+ cls) (contents db)) as [v0|] eqn:Hg.
  - pose proof (Forall_dict_get _ _ _ _ Hs Hg) as Hv0. cbn [snd] in Hv0.
    destruct v0 as [| | | |cur]; try (by intros [= _ <-]).
    destruct Hv0 as (rs & -> & Hrs). rewrite Hh.
    rewrite (unique_entries_ids h rs refs) by (apply Hrs || apply Hu).
    intros [= _ <-]. cbn [fst snd site_url]. split; [done|]. split; [|done].
    unfold stored_unique. cbn [contents set_total setitem].
    apply Forall_dict_set; [done|]. cbn [snd entries_ok].
    eexists. split; [by rewrite <- map_app|].
    by apply unique_refs_merge.
  - intros [= _ <-]. cbn [fst snd site_url]. split; [done|]. split; [|done].
    unfold stored_unique. cbn [contents set_total setitem].
    apply Forall_dict_set; [done|]. cbn [snd entries_ok]. by exists refs.
Qed.

Lemma merge_defs_unique h (defs : list (option string * list nat)) :
  Forall (fun kv => unique_refs h (snd kv)) defs →
  ∀ s r s',
    heap (snd s) = h →
    stored_unique h (fst s) →
    for_each defs merge_def s = (r, s') →
    snd s' = snd s ∧ stored_unique h (fst s') ∧ site_url (fst s') = site_url (fst s).
Proof.
  intros Hd. induction Hd as [|kv defs Hkv Hd IH]; intros s r s' Hh Hs;
    cbn [for_each]; [by intros [= _ <-]|].
  unfold bind. destruct (merge_def kv s) as [[[]|e] s1] eqn:E.
  - destruct (merge_def_unique h kv Hkv s _ _ Hh Hs E) as (H1 & H2 & H3).
    intros Hrest.
    destruct (IH s1 r s') as (H4 & H5 & H6); [congruence | done | done |].
    split; [congruence|]. split; [done | congruence].
  - intros [= _ <-]. by apply (merge_def_unique h kv Hkv s _ _ Hh Hs E).
Qed.

End MergeFacts.

(** ** What a page gives *)

Section PageUnique.
Import DataExtractor Pure.

Lemma lists_in_weaken (n m : nat) es : lists_in n m es → lists_in n (S m) es.
Proof.
  intros H. eapply Forall_impl; [exact H|]. intros kv [Hn Hb]. split; [done|].
  eapply Forall_impl; [exact Hb|]. intros r. cbn. lia.
Qed.

Lemma add_entry_lists_in (n m : nat) c es :
  (n ≤ m)%nat → lists_in n m es → lists_in n (S m) (add_entry c m es).
Proof.
  intros Hnm Hes. unfold add_entry.
  destruct (dict_get c es) as [lst|] eqn:Hg.
  - destruct (Forall_dict_get _ _ _ _ Hes Hg) as [Hn Hb]. cbn [snd] in *.
    apply Forall_dict_set; [by apply lists_in_weaken|]. cbn [snd]. split.
    + apply NoDup_app. split; [done|]. split; [|apply NoDup_singleton].
      intros x Hx ->%list_elem_of_singleton.
      rewrite Forall_forall in Hb. specialize (Hb _ Hx). lia.
    + apply Forall_app. split.
      * eapply Forall_impl; [exact Hb|]. intros r. cbn. lia.
      * apply Forall_singleton. lia.
  - apply Forall_dict_set; [by apply lists_in_weaken|]. cbn [snd]. split.
    + apply NoDup_singleton.
    + apply Forall_singleton. lia.
Qed.

Lemma dts_locals_lists_in url dl (n : nat) dts :
  ∀ lv (m : nat),
    (n ≤ m)%nat → lists_in n m (entries lv) →
    lists_in n (m + length dts) (entries (dts_locals url dl dts lv m)).
Proof.
  induction dts as [|dt rest IH]; intros lv m Hnm Hes; cbn [dts_locals length].
  - by rewrite Nat.add_0_r.
  - replace (m + S (length rest)) with (S m + length rest) by lia.
    apply IH; [lia|]. cbn [entries]. by apply add_entry_lists_in.
Qed.

Lemma dls_locals_lists_in url (n : nat) dls :
  ∀ lv (m : nat),
    (n ≤ m)%nat → lists_in n m (entries lv) →
    lists_in n (m + length (all_dts dls)) (entries (dls_locals url dls lv m)).
Proof.
  induction dls as [|dl rest IH]; intros lv m Hnm Hes; cbn [dls_locals].
  - cbn. by rewrite Nat.add_0_r.
  - unfold all_dts. cbn [map concat]. rewrite length_app, Nat.add_assoc.
    apply IH; [lia|]. unfold dl_locals. by apply dts_locals_lists_in.
Qed.

Lemma dts_cells_primary url dl dts :
  ∀ last desc,
    Forall (fun a => primary_type a = "id") (dts_cells url dl dts last desc).
Proof.
  induction dts as [|dt rest IH]; intros; cbn [dts_cells]; by constructor.
Qed.

Lemma dls_cells_primary url dls :
  ∀ lv n, Forall (fun a => primary_type a = "id") (dls_cells url dls lv n).
Proof.
  induction dls as [|dl rest IH]; intros; cbn [dls_cells]; [constructor|].
  apply Forall_app. split; [apply dts_cells_primary | apply IH].
Qed.

(** The instance made for the term at position [i] of the page. *)
Lemma page_cell h (cells : list entry_attrs) (dts : list dt_elem) (r : nat) :
  Forall (fun a => primary_type a = "id") cells →
  map (item "id") cells = map (fun dt => Some (dt_id dt)) dts →
  (length h ≤ r < length h + length dts)%nat →
  ∃ dt, dts !! (r - length h) = Some dt ∧
        id_entry (h ++ map Some cells) r ∧
        entry_id (h ++ map Some cells) r = Ok (dt_id dt).
Proof.
  intros Hpt Hids Hr.
  assert (Hlen : length cells = length dts).
  { by rewrite <- (length_map (item "id")), Hids, length_map. }
  destruct (lookup_lt_is_Some_2 dts (r - length h)) as [dt Hdt]; [lia|].
  destruct (lookup_lt_is_Some_2 cells (r - length h)) as [a Ha]; [lia|].
  assert (Hit : item "id" a = Some (dt_id dt)).
  { assert (Hl : map (item "id") cells !! (r - length h) = Some (item "id" a))
      by (by rewrite list_lookup_fmap, Ha).
    rewrite Hids, list_lookup_fmap, Hdt in Hl. cbn in Hl. congruence. }
  assert (Hh : (h ++ map Some cells) !! r = Some (Some a)).
  { rewrite lookup_app_r by lia. by rewrite list_lookup_fmap, Ha. }
  rewrite Forall_forall in Hpt.
  pose proof (Hpt a (list_elem_of_lookup_2 _ _ _ Ha)) as Hp.
  destruct a as [pt its]. cbn [primary_type] in Hp. subst pt.
  unfold item in Hit. cbn [items] in Hit.
  exists dt. split; [done|]. split.
  - by exists its, (dt_id dt).
  - unfold entry_id, Entry.getitem. rewrite Hh. cbn [items]. by rewrite Hit.
Qed.

Lemma get_defs_page_ok (url : string) (dls : list dl_elem) (st : pystate) :
  cache_keys_id st →
  page_ok dls →
  ∃ defs st' h',
    get_defs url dls st = (Ok defs, st') ∧
    heap st' = heap st ++ h' ∧
    cache_keys_id st' ∧
    Forall (fun kv => unique_refs (heap st') (snd kv)) defs.
Proof.
  intros Hc [Hp Hn]. unfold get_defs, bind, ret.
  set (lv0 := {| entries := []; last_link := ""; desc := "" |}).
  destruct (do_dls_plain url dls lv0 st Hc Hp) as (st' & Hrun & Hheap & Hc').
  rewrite Hrun. eexists _, st', _. split; [done|]. split; [exact Hheap|].
  split; [done|].
  pose proof (dls_locals_lists_in url (length (heap st)) dls lv0
                (length (heap st)) (le_n _) (Forall_nil_2 _)) as Hin.
  pose proof (page_cell (heap st) (dls_cells url dls lv0 (length (heap st)))
                (all_dts dls)) as Hcell.
  rewrite <- Hheap in Hcell.
  eapply Forall_impl; [exact Hin|]. intros [c refs] [Hnd Hb]. cbn [snd] in *.
  rewrite Forall_forall in Hb.
  assert (Hone : ∀ r, r ∈ refs →
            ∃ dt, all_dts dls !! (r - length (heap st)) = Some dt ∧
                  id_entry (heap st') r ∧ entry_id (heap st') r = Ok (dt_id dt)).
  { intros r Hr. apply Hcell;
      [apply dls_cells_primary | apply dls_cells_ids | by apply Hb]. }
  split.
  - apply Forall_forall. intros r Hr. by destruct (Hone r Hr) as (dt & _ & H & _).
  - apply NoDup_fmap_2_strong; [|done]. intros x y Hx Hy Heq.
    destruct (Hone x Hx) as (dx & Hdx & _ & Hex).
    destruct (Hone y Hy) as (dy & Hdy & _ & Hey).
    assert (Hid : dt_id dx = dt_id dy) by congruence.
    assert (Hi : x - length (heap st) = y - length (heap st)).
    { eapply (NoDup_lookup (map dt_id (all_dts dls))); [done| |].
      - by rewrite list_lookup_fmap, Hdx.
      - rewrite list_lookup_fmap, Hdy. cbn. by rewrite Hid. }
    specialize (Hb x Hx) as Hbx. specialize (Hb y Hy) as Hby. lia.
Qed.

End PageUnique.

(** ** The pages, one after the other *)

Section TotalFacts.
Import SphinxDatabase Phases.

Lemma do_link_unique (w : site) (url link : string) :
  (∀ u dls, page_dls w u = Ok dls → page_ok dls) →
  keeps (unique_so_far url) (do_link w link).
Proof.
  intros Hw [db st] r s' (Hu & Hc & Hs). cbn [fst snd] in *.
  unfold do_link, bind, get_db, lift. cbn [fst snd].
  destruct (page_dls w (site_url db +:+ "/" +:+ link)) as [dls|e] eqn:Hp;
    [|by intros [= _ <-]].
  destruct (get_defs_page_ok (site_url db +:+ "/" +:+ link) dls st Hc (Hw _ _ Hp))
    as (defs & st' & h' & Hrun & Hheap & Hc' & Hdefs).
  unfold on_py. cbn [fst snd]. rewrite Hrun. intros Hm.
  destruct (merge_defs_unique (heap st') defs Hdefs (db, st') r s')
    as (H1 & H2 & H3); [done | | done |].
  - cbn [fst]. rewrite Hheap. by apply stored_unique_mono.
  - cbn [fst snd] in *. unfold unique_so_far. rewrite H1. cbn [snd].
    split; [congruence|]. done.
Qed.

Lemma pages_unique (w : site) (url : string) :
  (∀ u dls, page_dls w u = Ok dls → page_ok dls) →
  keeps (unique_so_far url) (pages w).
Proof.
  intros Hw. apply keeps_except_KeyError, keeps_for_each. intros link.
  by apply do_link_unique.
Qed.

Lemma start_unique (v : option string) (url : string) (st : pystate) :
  cache_keys_id st → unique_so_far url (start v (create url), st).
Proof.
  intros Hc. split; [done|]. split; [done|]. cbn [fst snd].
  unfold stored_unique. cbn. repeat constructor. by destruct v.
Qed.

Lemma finish_unique h (db : Database) :
  stored_unique h db → stored_unique h (finish db).
Proof.
  intros Hs. unfold stored_unique, finish. cbn.
  by apply Forall_dict_set.
Qed.

(** ** Counting unique ids *)

Lemma unique_refs_ids h (rs : list nat) :
  unique_refs h rs →
  ∃ ids, omap (Stats.id_of h) (map VEntry rs) = ids ∧
         map Ok ids = map (entry_id h) rs.
Proof.
  intros [Hf _]. induction Hf as [|r rs Hr Hf IH]; [by exists []|].
  destruct IH as (ids & Hids & Hmap).
  destruct Hr as (its & v & Hh & Hv).
  assert (Hg : Entry.getitem h r "id" = Ok v).
  { unfold Entry.getitem. rewrite Hh. cbn [items]. by rewrite Hv. }
  exists (v :: ids). split.
  - change (omap (Stats.id_of h) (map VEntry (r :: rs)))
      with (match Stats.id_of h (VEntry r) with
            | Some x => x :: omap (Stats.id_of h) (map VEntry rs)
            | None => omap (Stats.id_of h) (map VEntry rs)
            end).
    unfold Stats.id_of at 1. by rewrite Hg, Hids.
  - cbn [map]. unfold entry_id at 1. by rewrite Hg, Hmap.
Qed.

Lemma remove_dups_length {A} `{EqDecision A} (l : list A) :
  NoDup l → length (remove_dups l) = length l.
Proof.
  intros Hn. apply Permutation_length, NoDup_Permutation;
    [apply NoDup_remove_dups | done |].
  intros x. apply elem_of_remove_dups.
Qed.

Lemma entries_ok_count h (v : value) :
  entries_ok h v →
  length (remove_dups (omap (Stats.id_of h) (Stats.entries_of v)))
    = length (Stats.entries_of v).
Proof.
  destruct v as [| | | |l]; try done.
  intros (rs & -> & Hu). cbn [Stats.entries_of].
  destruct (unique_refs_ids h rs Hu) as (ids & Hids & Hmap).
  rewrite Hids, remove_dups_length.
  - rewrite length_map.
    transitivity (length (map (@Ok pyval) ids)); [by rewrite length_map|].
    rewrite Hmap. apply length_map.
  - apply (NoDup_fmap_1 Ok). change (NoDup (map Ok ids)).
    rewrite Hmap. apply Hu.
Qed.

Lemma unique_count_stored h (db : Database) :
  stored_unique h db → Stats.unique_count h db = Stats.entry_count db.
Proof.
  unfold stored_unique, Stats.unique_count, Stats.entry_count,
    Stats.stored_entries, dict_values.
  intros Hs. f_equal. induction Hs as [|[k v] d Hv Hs IH]; [done|].
  cbn [map concat snd] in *. rewrite !length_app, IH. f_equal.
  by apply entries_ok_count.
Qed.

End TotalFacts.
